(** * CLIStyle: escape-sequence tables, RGB generator and styling facade

    A shallow embedding of [clistyle.hpp] (namespace [CLIStyle]) and the
    properties of its escape-sequence resolution, its string and stream
    operations and its process-wide capability flag. *)

From Stdlib Require Import ZArith String Ascii List Lia DecimalString.
From stdpp Require Import base strings gmap list.

Local Open Scope string_scope.
Local Open Scope Z_scope.

(** ** Characters and strings *)

(** The byte written ["\033"] in the C++ literals (octal 33 = 27 = 0x1B). *)
Definition ESC_byte : ascii := "027"%char.
Definition ESC : string := String ESC_byte "".

(** ['\n'], as in the diagnostics sent to [std::cerr]. *)
Definition NL : string := String "010"%char "".

(** [std::to_string] applied to a [uint8_t]: the argument is promoted to
    [int] and printed in decimal (as by ["%d"]). *)
Definition to_string (n : Z) : string := NilZero.string_of_int (Z.to_int n).

(** ** namespace _private: the lookup tables *)

(** [unordered_map<string,string>::operator[]]: the mapped value, and a
    default-constructed (empty) string for a key that is absent.  Every key
    the library uses is present (see [keys_present]), so the insertion that
    [operator[]] performs for an absent key never happens and the tables
    stay as initialised. *)
Definition at_key (m : gmap string string) (k : string) : string :=
  default "" (m !! k).

Definition styles : gmap string string :=
  list_to_map
    [ ("bold", ESC +:+ "[1m");
      ("italic", ESC +:+ "[3m");
      ("underline", ESC +:+ "[4m");
      ("reverse", ESC +:+ "[7m") ].

Definition color_text : gmap string string :=
  list_to_map
    [ ("grey", ESC +:+ "[30m");
      ("red", ESC +:+ "[31m");
      ("green", ESC +:+ "[32m");
      ("yellow", ESC +:+ "[33m");
      ("blue", ESC +:+ "[34m");
      ("magenta", ESC +:+ "[35m");
      ("cyan", ESC +:+ "[36m");
      ("white", ESC +:+ "[37m");
      ("bright grey", ESC +:+ "[1;30m");
      ("bright red", ESC +:+ "[1;31m");
      ("bright green", ESC +:+ "[1;32m");
      ("bright yellow", ESC +:+ "[1;33m");
      ("bright blue", ESC +:+ "[1;34m");
      ("bright magenta", ESC +:+ "[1;35m");
      ("bright cyan", ESC +:+ "[1;36m");
      ("bright white", ESC +:+ "[1;37m") ].

Definition color_background : gmap string string :=
  list_to_map
    [ ("grey", ESC +:+ "[40m");
      ("red", ESC +:+ "[41m");
      ("green", ESC +:+ "[42m");
      ("yellow", ESC +:+ "[43m");
      ("blue", ESC +:+ "[44m");
      ("magenta", ESC +:+ "[45m");
      ("cyan", ESC +:+ "[46m");
      ("white", ESC +:+ "[47m");
      ("bright grey", ESC +:+ "[1;40m");
      ("bright red", ESC +:+ "[1;41m");
      ("bright green", ESC +:+ "[1;42m");
      ("bright yellow", ESC +:+ "[1;43m");
      ("bright blue", ESC +:+ "[1;44m");
      ("bright magenta", ESC +:+ "[1;45m");
      ("bright cyan", ESC +:+ "[1;46m");
      ("bright white", ESC +:+ "[1;47m") ].

Definition RESET_STYLE : string := ESC +:+ "[0m".

(** ** getColor and the RGB helpers *)

(** [getColor<position, red, green, blue>()]: any position other than 1
    takes the background branch. *)
Definition getColor (position red green blue : Z) : string :=
  if position =? 1 then
    ESC +:+ "[38;2;" +:+ to_string red +:+ ";" +:+ to_string green
        +:+ ";" +:+ to_string blue +:+ "m"
  else
    ESC +:+ "[48;2;" +:+ to_string red +:+ ";" +:+ to_string green
        +:+ ";" +:+ to_string blue +:+ "m".

(** [colorText<r,g,b>(text)] *)
Definition colorText (red green blue : Z) (text : string) : string :=
  let color := getColor 1 red green blue in
  color +:+ text +:+ RESET_STYLE.

(** [colorText<r,g,b>()] *)
Definition colorText0 (red green blue : Z) : string :=
  getColor 1 red green blue.

(** [colorBackground<r,g,b>(text)] *)
Definition colorBackground (red green blue : Z) (text : string) : string :=
  let color := getColor 0 red green blue in
  color +:+ text +:+ RESET_STYLE.

(** [colorBackground<r,g,b>()] *)
Definition colorBackground0 (red green blue : Z) : string :=
  getColor 0 red green blue.

Definition TEXT : Z := 1.
Definition BACKGROUND : Z := 0.

(** ** Process state

    The library keeps one global, [_private::handleVTSequences].  The world
    below adds what its operations can reach: the output streams they are
    handed (and [std::cerr]), the console of the host platform, and a ghost
    counter of the calls made to [enableVTSequences]. *)

(** A stream is a reference to a stream object: a name in the store. *)
Definition stream : Type := nat.
Definition cerr : stream := 0%nat.

(** Outcome of the three console API calls made by the Windows enabler.
    The console mode itself lives in the operating system and is not
    modelled. *)
Record console : Type := mkConsole {
  GetStdHandle_valid : bool;   (* hOut != INVALID_HANDLE_VALUE *)
  GetConsoleMode_ok : bool;
  SetConsoleMode_ok : bool
}.

(** Which branch of [#ifdef _WIN32] the build takes. *)
Inductive platform : Type :=
  | Posix
  | Win32 (c : console).

Record world : Type := mkWorld {
  handleVTSequences : bool;
  enable_calls : nat;
  streams : gmap stream string;
  host : platform
}.

Definition set_handleVTSequences (b : bool) (w : world) : world :=
  mkWorld b (enable_calls w) (streams w) (host w).

Definition count_enable (w : world) : world :=
  mkWorld (handleVTSequences w) (S (enable_calls w)) (streams w) (host w).

Definition set_streams (s : gmap stream string) (w : world) : world :=
  mkWorld (handleVTSequences w) (enable_calls w) s (host w).

(** Characters written so far to a stream. *)
Definition written (os : stream) (w : world) : string :=
  default "" (streams w !! os).

(** A fresh process: [inline bool handleVTSequences = false]. *)
Definition initial (p : platform) (s : gmap stream string) : world :=
  mkWorld false 0 s p.

(** A call either returns to its caller or terminates the process
    ([exit]). *)
Inductive outcome (A : Type) : Type :=
  | Returned (a : A) (w : world)
  | Exited (status : Z) (w : world).
Arguments Returned {A} a w.
Arguments Exited {A} status w.

Definition final {A} (o : outcome A) : world :=
  match o with Returned _ w => w | Exited _ w => w end.

Definition M (A : Type) : Type := world -> outcome A.

Definition ret {A} (a : A) : M A := fun w => Returned a w.

Definition bind {A B} (m : M A) (f : A -> M B) : M B :=
  fun w => match m w with
           | Returned a w' => f a w'
           | Exited st w' => Exited st w'
           end.

Notation "x <- m ;; k" := (bind m (fun x => k))
  (at level 100, m at next level, right associativity).
Notation "m ;; k" := (bind m (fun _ => k))
  (at level 100, right associativity).

Definition EXIT_FAILURE : Z := 1.

(** [exit(status)] *)
Definition exit {A} (status : Z) : M A := fun w => Exited status w.

(** [os << s] on a stream in its initial formatting state (good, field
    width 0): the characters of [s] are appended.  The formatting state of
    a stream, with padding to [os.width()] and the failed stream, is in
    [Formatted] below. *)
Definition put (os : stream) (s : string) : M unit :=
  fun w => Returned tt (set_streams (<[os := written os w +:+ s]> (streams w)) w).

(** [os << std::endl] *)
Definition endl (os : stream) : M unit := put os NL.

(** ** enableVTSequences and checkPosition *)

Definition enableVTSequences_win32 (c : console) : M unit :=
  if negb (GetStdHandle_valid c) then
    put cerr ("Couldn't get the console handle. Quitting." +:+ NL) ;;
    endl cerr ;;
    exit EXIT_FAILURE
  else if negb (GetConsoleMode_ok c) then
    put cerr ("Unable to enter VT processing mode. Quitting." +:+ NL) ;;
    endl cerr ;;
    exit EXIT_FAILURE
  else if negb (SetConsoleMode_ok c) then
    put cerr ("Unable to enter VT processing mode. Quitting." +:+ NL) ;;
    endl cerr ;;
    exit EXIT_FAILURE
  else
    fun w => Returned tt (set_handleVTSequences true w).

(** [enableVTSequences(handleVTSequences)]: the reference it receives is
    always the global flag. *)
Definition enableVTSequences : M unit :=
  fun w =>
    match host w with
    | Win32 c => enableVTSequences_win32 c (count_enable w)
    | Posix => Returned tt (set_handleVTSequences true (count_enable w))
    end.

(** The statement
    [if (!_private::handleVTSequences) _private::enableVTSequences(...)]. *)
Definition vt_gate : M unit :=
  fun w => if negb (handleVTSequences w) then enableVTSequences w
           else Returned tt w.

(** [checkPosition(position)] *)
Definition checkPosition (position : Z) : M unit :=
  if negb (position =? 1) && negb (position =? 0) then
    put cerr "Position must be either 0 or 1" ;;
    exit EXIT_FAILURE
  else ret tt.

(** ** The styling facade

    Every standard colour has the same six functions; they are written once
    over the colour.  The overloads of one C++ name get a suffix here:
    [_pos_os] and [_pos_str] for the templates over [position], [_os] and
    [_str] for the stream and string overloads. *)

Inductive NamedColor : Type :=
  | Grey | BrightGrey | Red | BrightRed | Green | BrightGreen
  | Yellow | BrightYellow | Blue | BrightBlue | Magenta | BrightMagenta
  | Cyan | BrightCyan | White | BrightWhite.

(** The table key each family of functions uses. *)
Definition key (c : NamedColor) : string :=
  match c with
  | Grey => "grey" | BrightGrey => "bright grey"
  | Red => "red" | BrightRed => "bright red"
  | Green => "green" | BrightGreen => "bright green"
  | Yellow => "yellow" | BrightYellow => "bright yellow"
  | Blue => "blue" | BrightBlue => "bright blue"
  | Magenta => "magenta" | BrightMagenta => "bright magenta"
  | Cyan => "cyan" | BrightCyan => "bright cyan"
  | White => "white" | BrightWhite => "bright white"
  end.

(** Only the six [grey] functions start with the capability statement; the
    functions of the fifteen other colours have none. *)
Definition gate_of (c : NamedColor) : M unit :=
  match c with
  | Grey => vt_gate
  | _ => ret tt
  end.

(** [c<position>(ostream& os)] *)
Definition named_pos_os (c : NamedColor) (position : Z) (os : stream) : M stream :=
  gate_of c ;;
  checkPosition position ;;
  put os (if position =? TEXT then at_key color_text (key c)
          else at_key color_background (key c)) ;;
  ret os.

(** [c<position>(const string& text)] *)
Definition named_pos_str (c : NamedColor) (position : Z) (text : string) : M string :=
  gate_of c ;;
  checkPosition position ;;
  let color := if position =? TEXT then at_key color_text (key c)
               else at_key color_background (key c) in
  ret (color +:+ text +:+ RESET_STYLE).

(** [c(const string& text)] *)
Definition named_str (c : NamedColor) (text : string) : M string :=
  gate_of c ;;
  let color := at_key color_text (key c) in
  ret (color +:+ text +:+ RESET_STYLE).

(** [c(ostream& os)] *)
Definition named_os (c : NamedColor) (os : stream) : M stream :=
  gate_of c ;;
  put os (at_key color_text (key c)) ;;
  ret os.

(** [on_c(const string& text)] *)
Definition on_named_str (c : NamedColor) (text : string) : M string :=
  gate_of c ;;
  let color := at_key color_background (key c) in
  ret (color +:+ text +:+ RESET_STYLE).

(** [on_c(ostream& os)] *)
Definition on_named_os (c : NamedColor) (os : stream) : M stream :=
  gate_of c ;;
  put os (at_key color_background (key c)) ;;
  ret os.

(** The functions the statements below quote by name. *)
Definition grey_str : string -> M string := named_str Grey.
Definition red_str : string -> M string := named_str Red.
Definition red_os : stream -> M stream := named_os Red.
Definition red_pos_str : Z -> string -> M string := named_pos_str Red.
Definition bright_grey_pos_os : Z -> stream -> M stream := named_pos_os BrightGrey.

(** [color<position, red, green, blue>(ostream& os)] *)
Definition color_pos_os (position red green blue : Z) (os : stream) : M stream :=
  checkPosition position ;;
  vt_gate ;;
  put os (getColor position red green blue) ;;
  ret os.

(** [color<position, red, green, blue>(const string& text)] *)
Definition color_pos_str (position red green blue : Z) (text : string) : M string :=
  checkPosition position ;;
  vt_gate ;;
  ret (if position =? TEXT then colorText red green blue text
       else colorBackground red green blue text).

(** [color<red, green, blue>(const string& text)] *)
Definition color_str (red green blue : Z) (text : string) : M string :=
  vt_gate ;;
  ret (colorText red green blue text).

(** [color<red, green, blue>(ostream& os)] *)
Definition color_os (red green blue : Z) (os : stream) : M stream :=
  vt_gate ;;
  put os (colorBackground0 red green blue) ;;
  ret os.

(** [on_color<red, green, blue>(const string& text)] *)
Definition on_color_str (red green blue : Z) (text : string) : M string :=
  vt_gate ;;
  ret (colorText red green blue text).

(** [on_color<red, green, blue>(ostream& os)] *)
Definition on_color_os (red green blue : Z) (os : stream) : M stream :=
  vt_gate ;;
  put os (colorBackground0 red green blue) ;;
  ret os.

Definition bold_os (os : stream) : M stream :=
  vt_gate ;; put os (ESC +:+ "[1m") ;; ret os.

Definition bold_str (text : string) : M string :=
  vt_gate ;;
  let bold := ESC +:+ "[1m" in
  ret (bold +:+ text +:+ RESET_STYLE).

Definition italic_os (os : stream) : M stream :=
  vt_gate ;; put os (ESC +:+ "[3m") ;; ret os.

Definition italic_str (text : string) : M string :=
  vt_gate ;;
  let italic := ESC +:+ "[3m" in
  ret (italic +:+ text +:+ RESET_STYLE).

Definition underline_os (os : stream) : M stream :=
  vt_gate ;; put os (ESC +:+ "[4m") ;; ret os.

Definition underline_str (text : string) : M string :=
  vt_gate ;;
  let underline := ESC +:+ "[4m" in
  ret (underline +:+ text +:+ RESET_STYLE).

Definition reverse_os (os : stream) : M stream :=
  vt_gate ;; put os (ESC +:+ "[7m") ;; ret os.

Definition reverse_str (text : string) : M string :=
  vt_gate ;;
  let reverse := ESC +:+ "[7m" in
  ret (reverse +:+ text +:+ RESET_STYLE).

Definition reset_os (os : stream) : M stream :=
  vt_gate ;; put os RESET_STYLE ;; ret os.

Definition reset_str (text : string) : M string :=
  vt_gate ;;
  ret (text +:+ RESET_STYLE).

(** ** Entry points and invocations *)

Inductive TextStyle : Type := Bold | Italic | Underline | Reverse.

(** The string-returning entry points. *)
Inductive str_entry : Type :=
  | NamedPosStr (c : NamedColor) (position : Z)
  | NamedStr (c : NamedColor)
  | OnNamedStr (c : NamedColor)
  | ColorPosStr (position red green blue : Z)
  | ColorStr (red green blue : Z)
  | OnColorStr (red green blue : Z)
  | StyleStr (s : TextStyle)
  | ResetStr.

(** The stream-returning entry points. *)
Inductive os_entry : Type :=
  | NamedPosOs (c : NamedColor) (position : Z)
  | NamedOs (c : NamedColor)
  | OnNamedOs (c : NamedColor)
  | ColorPosOs (position red green blue : Z)
  | ColorOs (red green blue : Z)
  | OnColorOs (red green blue : Z)
  | StyleOs (s : TextStyle)
  | ResetOs.

Definition call_str (e : str_entry) (text : string) : M string :=
  match e with
  | NamedPosStr c position => named_pos_str c position text
  | NamedStr c => named_str c text
  | OnNamedStr c => on_named_str c text
  | ColorPosStr position r g b => color_pos_str position r g b text
  | ColorStr r g b => color_str r g b text
  | OnColorStr r g b => on_color_str r g b text
  | StyleStr Bold => bold_str text
  | StyleStr Italic => italic_str text
  | StyleStr Underline => underline_str text
  | StyleStr Reverse => reverse_str text
  | ResetStr => reset_str text
  end.

Definition call_os (e : os_entry) (os : stream) : M stream :=
  match e with
  | NamedPosOs c position => named_pos_os c position os
  | NamedOs c => named_os c os
  | OnNamedOs c => on_named_os c os
  | ColorPosOs position r g b => color_pos_os position r g b os
  | ColorOs r g b => color_os r g b os
  | OnColorOs r g b => on_color_os r g b os
  | StyleOs Bold => bold_os os
  | StyleOs Italic => italic_os os
  | StyleOs Underline => underline_os os
  | StyleOs Reverse => reverse_os os
  | ResetOs => reset_os os
  end.

(** One invocation of a styling operation by the host program. *)
Inductive call : Type :=
  | CallStr (e : str_entry) (text : string)
  | CallOs (e : os_entry) (os : stream).

Inductive value : Type :=
  | VStr (s : string)
  | VStream (os : stream).

Definition invoke (c : call) : M value :=
  match c with
  | CallStr e text => s <- call_str e text ;; ret (VStr s)
  | CallOs e os => o <- call_os e os ;; ret (VStream o)
  end.

(** The host program makes the calls one after the other; a call that
    exits ends the process.  [run] gives the world after each call. *)
Fixpoint run (cs : list call) (w : world) : list world :=
  w :: match cs with
       | [] => []
       | c :: cs' =>
           match invoke c w with
           | Returned _ w' => run cs' w'
           | Exited _ w' => [w']
           end
       end.

(** The flag as each successive call finds it, then as the last call
    leaves it. *)
Definition flag_trace (cs : list call) (w : world) : list bool :=
  map handleVTSequences (run cs w).

(** ** Requests, as the specification names them *)

Inductive Target : Type := Foreground | Background.

Definition position_of (t : Target) : Z :=
  match t with Foreground => TEXT | Background => BACKGROUND end.

Inductive request : Type :=
  | Named (c : NamedColor) (t : Target)
  | Styled (s : TextStyle)
  | Rgb (t : Target) (red green blue : Z).

Definition style_key (s : TextStyle) : string :=
  match s with
  | Bold => "bold" | Italic => "italic"
  | Underline => "underline" | Reverse => "reverse"
  end.

(** [lookup(NamedColor, Target)], [lookup(TextStyle)], [rgb] and [reset]
    of the Escape Table. *)
Definition lookup_color (c : NamedColor) (t : Target) : string :=
  match t with
  | Foreground => at_key color_text (key c)
  | Background => at_key color_background (key c)
  end.

Definition lookup_style (s : TextStyle) : string := at_key styles (style_key s).

Definition rgb (t : Target) (red green blue : Z) : string :=
  getColor (position_of t) red green blue.

Definition resolve (q : request) : string :=
  match q with
  | Named c t => lookup_color c t
  | Styled s => lookup_style s
  | Rgb t r g b => rgb t r g b
  end.

(** The string form and the stream form of a request: the operation that
    is given the target of the request. *)
Definition wrap (q : request) (text : string) : M string :=
  match q with
  | Named c t => named_pos_str c (position_of t) text
  | Styled s => call_str (StyleStr s) text
  | Rgb t r g b => color_pos_str (position_of t) r g b text
  end.

Definition apply (q : request) (os : stream) : M stream :=
  match q with
  | Named c t => named_pos_os c (position_of t) os
  | Styled s => call_os (StyleOs s) os
  | Rgb t r g b => color_pos_os (position_of t) r g b os
  end.

(** The capability step cannot fail: the flag is already set, or the host
    console accepts the three calls of the enabler. *)
Definition can_enable (p : platform) : bool :=
  match p with
  | Posix => true
  | Win32 c => GetStdHandle_valid c && GetConsoleMode_ok c && SetConsoleMode_ok c
  end.

Definition capable (w : world) : bool :=
  handleVTSequences w || can_enable (host w).

(** The world a passing capability statement leaves. *)
Definition enabled (w : world) : world :=
  if handleVTSequences w then w
  else set_handleVTSequences true (count_enable w).

(** The eight base hues in the order of their digit. *)
Definition hues : list string :=
  ["grey"; "red"; "green"; "yellow"; "blue"; "magenta"; "cyan"; "white"].

(** ** Decimal numerals *)

Definition is_digit (c : ascii) : bool :=
  (48 <=? Z.of_nat (nat_of_ascii c)) && (Z.of_nat (nat_of_ascii c) <=? 57).

Fixpoint digits_value (acc : Z) (s : string) : option Z :=
  match s with
  | EmptyString => Some acc
  | String c s' =>
      if is_digit c
      then digits_value (10 * acc + (Z.of_nat (nat_of_ascii c) - 48)) s'
      else None
  end.

(** The number a non-empty string of decimal digits denotes. *)
Definition decimal_value (s : string) : option Z :=
  match s with
  | EmptyString => None
  | _ => digits_value 0 s
  end.

Definition no_leading_zero (s : string) : bool :=
  match s with
  | String "0" (String _ _) => false
  | _ => true
  end.

(** [s] is the decimal numeral of [n], without leading zeros. *)
Definition decimal_of (n : Z) (s : string) : bool :=
  no_leading_zero s && bool_decide (decimal_value s = Some n).

Definition uint8 (n : Z) : Prop := 0 <= n < 256.

(** ** Vocabulary of the statements *)

Definition style_literal (s : TextStyle) : string :=
  match s with
  | Bold => String ESC_byte "[1m"
  | Italic => String ESC_byte "[3m"
  | Underline => String ESC_byte "[4m"
  | Reverse => String ESC_byte "[7m"
  end.

(** The stream after [os << s] in world [w]. *)
Definition appended (os : stream) (s : string) (w : world) : gmap stream string :=
  <[os := written os w +:+ s]> (streams w).

Definition position_ok (e : str_entry) : bool :=
  match e with
  | NamedPosStr _ position | ColorPosStr position _ _ _ =>
      (position =? TEXT) || (position =? BACKGROUND)
  | _ => true
  end.

(** The components of an RGB request are [uint8_t]. *)
Definition request_ok (q : request) : Prop :=
  match q with
  | Rgb _ r g b => uint8 r /\ uint8 g /\ uint8 b
  | _ => True
  end.

(** An operation that finds the flag set leaves it set, whether it returns
    or exits. *)
Definition keeps_flag {A} (m : M A) : Prop :=
  forall w, handleVTSequences w = true -> handleVTSequences (final (m w)) = true.

(** The enabler counts its calls, and sets the flag when it returns. *)
Definition counts_enabler {A} (m : M A) : Prop :=
  forall w,
    match m w with
    | Returned _ w' =>
        (handleVTSequences w = true ->
         handleVTSequences w' = true /\ enable_calls w' = enable_calls w) /\
        (handleVTSequences w = false ->
         (handleVTSequences w' = false /\ enable_calls w' = enable_calls w) \/
         (handleVTSequences w' = true /\ enable_calls w' = S (enable_calls w)))
    | Exited _ w' =>
        (handleVTSequences w = true -> enable_calls w' = enable_calls w) /\
        (enable_calls w' <= S (enable_calls w))%nat
    end.

(** ** Stripping escape sequences

    The round-trip property removes from a string every substring of the
    form ESC '[' ... 'm'.  All the sequences of the library have decimal
    digits and ';' between the bracket and the 'm'; a sequence is read here
    as ESC, '[', any number of those parameter characters, 'm'.  Such a
    substring is fixed by the place it starts at, and two of them never
    overlap. *)

Definition is_param (c : ascii) : bool := is_digit c || Ascii.eqb c ";".

(** Length of the parameters and the closing 'm' that [s] starts with. *)
Fixpoint params_len (s : string) : option nat :=
  match s with
  | EmptyString => None
  | String c s' =>
      if is_param c then option_map S (params_len s')
      else if Ascii.eqb c "m" then Some 1%nat
      else None
  end.

(** Length of the escape sequence that [s] starts with, if it starts with
    one. *)
Definition sequence_len (s : string) : option nat :=
  match s with
  | String c (String d s') =>
      if Ascii.eqb c ESC_byte && Ascii.eqb d "["
      then option_map (fun n => S (S n)) (params_len s')
      else None
  | _ => None
  end.

(** [strip_skip k s]: drop the [k] characters left of a sequence under
    removal, then go on removing the sequences of [s]. *)
Fixpoint strip_skip (skip : nat) (s : string) : string :=
  match s with
  | EmptyString => EmptyString
  | String c s' =>
      match skip with
      | S k => strip_skip k s'
      | O =>
          match sequence_len s with
          | Some (S k) => strip_skip k s'
          | _ => String c (strip_skip 0 s')
          end
      end
  end.

Definition strip (s : string) : string := strip_skip 0 s.

(** The escape sequence with parameters [a]. *)
Definition sgr (a : string) : string := String ESC_byte ("[" +:+ a +:+ "m").

Definition all_params (s : string) : bool :=
  forallb is_param (list_ascii_of_string s).

(** Every sequence a request resolves to is ESC, '[', parameters, 'm'. *)
Definition is_sequence (p : string) : Prop :=
  exists a, all_params a = true /\ p = sgr a.

(** No escape sequence starts anywhere in [s]. *)
Fixpoint sequence_free (s : string) : bool :=
  match s with
  | EmptyString => true
  | String _ s' =>
      match sequence_len s with
      | None => sequence_free s'
      | Some _ => false
      end
  end.

(** [s] has no ESC byte. *)
Definition no_ESC (s : string) : bool :=
  forallb (fun c => negb (Ascii.eqb c ESC_byte)) (list_ascii_of_string s).

(** ** Vocabulary of the further properties *)

(** [operator[]] in full: the mapped value and the table afterwards; an
    absent key is inserted with an empty string. *)
Definition subscript (m : gmap string string) (k : string)
  : string * gmap string string :=
  match m !! k with
  | Some v => (v, m)
  | None => ("", <[k := ""]> m)
  end.

(** The entry points whose body has the capability statement. *)
Definition gated (c : NamedColor) : bool :=
  match c with Grey => true | _ => false end.

Definition str_uses_gate (e : str_entry) : bool :=
  match e with
  | NamedPosStr c _ | NamedStr c | OnNamedStr c => gated c
  | _ => true
  end.

Definition os_uses_gate (e : os_entry) : bool :=
  match e with
  | NamedPosOs c _ | NamedOs c | OnNamedOs c => gated c
  | _ => true
  end.

Definition uses_gate (c : call) : bool :=
  match c with
  | CallStr e _ => str_uses_gate e
  | CallOs e _ => os_uses_gate e
  end.


(** The world after the capability statement of the request, if its
    operation has one. *)
Definition gate_world (q : request) (w : world) : world :=
  match q with
  | Named c _ => if gated c then enabled w else w
  | _ => enabled w
  end.

(** A computation that writes to no stream when it returns, and when it
    exits does so with [EXIT_FAILURE] and has written to [std::cerr] only. *)
Definition quiet {A} (m : M A) : Prop :=
  forall w,
    match m w with
    | Returned _ w' => streams w' = streams w
    | Exited st w' =>
        st = EXIT_FAILURE /\ forall o, o <> cerr -> streams w' !! o = streams w !! o
    end.

Definition exits_quietly {A} (m : M A) : Prop :=
  forall w st w',
    m w = Exited st w' ->
    st = EXIT_FAILURE /\ forall o, o <> cerr -> streams w' !! o = streams w !! o.


Definition all_digits (s : string) : bool :=
  forallb is_digit (list_ascii_of_string s).

(** What a string entry point puts in front of the text. *)
Definition str_prefix (e : str_entry) : string :=
  match e with
  | NamedPosStr c position =>
      if position =? TEXT then at_key color_text (key c)
      else at_key color_background (key c)
  | NamedStr c => at_key color_text (key c)
  | OnNamedStr c => at_key color_background (key c)
  | ColorPosStr position r g b =>
      if position =? TEXT then getColor 1 r g b else getColor 0 r g b
  | ColorStr r g b => getColor 1 r g b
  | OnColorStr r g b => getColor 1 r g b
  | StyleStr s => style_literal s
  | ResetStr => ""
  end.

(** The capability part of the state: the flag and the call counter. *)
Definition same_capability (w w' : world) : Prop :=
  handleVTSequences w' = handleVTSequences w /\
  enable_calls w' = enable_calls w /\
  host w' = host w.

Definition keeps_capability {A} (m : M A) : Prop :=
  forall w, same_capability w (final (m w)).

(** A computation that a world without the capability makes exit, the flag
    still unset. *)
Definition fatal {A} (m : M A) : Prop :=
  forall w,
    capable w = false ->
    exists w', m w = Exited EXIT_FAILURE w' /\ handleVTSequences w' = false.



(** The digit that tells the two RGB families apart. *)
Definition family_digit (t : Target) : ascii :=
  match t with Foreground => "3"%char | Background => "4"%char end.

(** The values of the enumerations. *)
Definition all_colors : list NamedColor :=
  [Grey; BrightGrey; Red; BrightRed; Green; BrightGreen; Yellow; BrightYellow;
   Blue; BrightBlue; Magenta; BrightMagenta; Cyan; BrightCyan; White; BrightWhite].

Definition all_targets : list Target := [Foreground; Background].

Definition all_styles : list TextStyle := [Bold; Italic; Underline; Reverse].

Definition color_code (c : NamedColor) : nat :=
  match c with
  | Grey => 0 | BrightGrey => 1 | Red => 2 | BrightRed => 3
  | Green => 4 | BrightGreen => 5 | Yellow => 6 | BrightYellow => 7
  | Blue => 8 | BrightBlue => 9 | Magenta => 10 | BrightMagenta => 11
  | Cyan => 12 | BrightCyan => 13 | White => 14 | BrightWhite => 15
  end%nat.

Definition target_code (t : Target) : nat :=
  match t with Foreground => 0 | Background => 1 end%nat.

Definition style_code (s : TextStyle) : nat :=
  match s with Bold => 0 | Italic => 1 | Underline => 2 | Reverse => 3 end%nat.

(** The table sequences and the style sequences, with the code of the
    request each belongs to. *)
Definition table_sequences : list (nat * string) :=
  (flat_map (fun c => map (fun t => (2 * color_code c + target_code t,
                                    lookup_color c t)) all_targets) all_colors
   ++ map (fun s => (32 + style_code s, lookup_style s)) all_styles)%list%nat.

(** No two entries share a sequence, and none has the '8' that follows the
    family digit of an RGB sequence. *)
Definition table_sequences_distinct : bool :=
  forallb (fun p =>
     negb (bool_decide (String.get 3 (snd p) = Some "8"%char)) &&
     forallb (fun p' =>
        implb (String.eqb (snd p) (snd p')) (Nat.eqb (fst p) (fst p')))
       table_sequences)
    table_sequences.

(** An invariant of the process state that a computation keeps, whether
    it returns or exits. *)
Definition preserves (I : world -> Prop) {A} (m : M A) : Prop :=
  forall w, I w -> I (final (m w)).

(** The flag is set by the enabler only. *)
Definition called_if_set (w : world) : Prop :=
  handleVTSequences w = true -> (1 <= enable_calls w)%nat.

(** A computation that only returns with the flag set. *)
Definition sets_flag {A} (m : M A) : Prop :=
  forall w a w', m w = Returned a w' -> handleVTSequences w' = true.

(** ** Formatted output

    [operator<<] on a string or a character array is a formatted output
    function: on a stream that is not good it writes nothing; on a good
    stream it pads the characters to [os.width()] with [os.fill()], after
    them when the adjustment is [left] and before them otherwise, and sets
    the width back to 0.  The exception mask of the streams is taken empty,
    its initial value, and the stream buffer accepts what it is given. *)

Record ios : Type := mkIos {
  ios_good : bool;     (* os.good() *)
  ios_width : nat;     (* os.width() *)
  ios_fill : ascii;    (* os.fill() *)
  ios_left : bool      (* (os.flags() & adjustfield) == left *)
}.

(** The state [basic_ios::init] gives a stream. *)
Definition default_ios : ios := mkIos true 0 " "%char false.

(** The formatting state of each stream; a stream without an entry is in
    the initial state. *)
Definition ios_at (os : stream) (fs : gmap stream ios) : ios :=
  default default_ios (fs !! os).

Fixpoint fill_string (n : nat) (c : ascii) : string :=
  match n with
  | O => ""
  | S k => String c (fill_string k c)
  end.

(** The characters a formatted output of [s] sends to the buffer. *)
Definition padded (st : ios) (s : string) : string :=
  if (String.length s <? ios_width st)%nat then
    if ios_left st
    then s +:+ fill_string (ios_width st - String.length s) (ios_fill st)
    else fill_string (ios_width st - String.length s) (ios_fill st) +:+ s
  else s.


(** Forgetting the formatting states of an outcome. *)
Definition forget {A} (o : outcome (A * gmap stream ios)) : outcome A :=
  match o with
  | Returned r w => Returned (fst r) w
  | Exited st w => Exited st w
  end.

(** The stream operations over streams with a formatting state.  The
    definitions have the names of the source and of the definitions above,
    which they refine: every [os << s] is a formatted output. *)
Module Formatted.

Definition FM (A : Type) : Type := gmap stream ios -> M (A * gmap stream ios).

Definition fret {A} (a : A) : FM A := fun fs => ret (a, fs).

Definition fbind {A B} (m : FM A) (k : A -> FM B) : FM B :=
  fun fs => bind (m fs) (fun r => k (fst r) (snd r)).

(** A computation that consults no formatting state. *)
Definition lift {A} (m : M A) : FM A :=
  fun fs => bind m (fun a => ret (a, fs)).

Notation "x <- m ;;; k" := (fbind m (fun x => k))
  (at level 100, m at next level, right associativity).
Notation "m ;;; k" := (fbind m (fun _ => k))
  (at level 100, right associativity).

(** [os << std::endl]: [os.put('\n')], an unformatted output, then a
    flush. *)
Definition endl (os : stream) : FM unit :=
  fun fs =>
    if ios_good (ios_at os fs) then bind (put os NL) (fun _ => ret (tt, fs))
    else ret (tt, fs).

(** [os << s] *)
Definition put (os : stream) (s : string) : FM unit :=
  fun fs =>
    let st := ios_at os fs in
    if ios_good st then
      bind (put os (padded st s))
           (fun _ => ret (tt, <[os := mkIos true 0 (ios_fill st) (ios_left st)]> fs))
    else ret (tt, fs).

Definition enableVTSequences_win32 (c : console) : FM unit :=
  if negb (GetStdHandle_valid c) then
    put cerr ("Couldn't get the console handle. Quitting." +:+ NL) ;;;
    endl cerr ;;;
    lift (exit EXIT_FAILURE)
  else if negb (GetConsoleMode_ok c) then
    put cerr ("Unable to enter VT processing mode. Quitting." +:+ NL) ;;;
    endl cerr ;;;
    lift (exit EXIT_FAILURE)
  else if negb (SetConsoleMode_ok c) then
    put cerr ("Unable to enter VT processing mode. Quitting." +:+ NL) ;;;
    endl cerr ;;;
    lift (exit EXIT_FAILURE)
  else
    fun fs w => Returned (tt, fs) (set_handleVTSequences true w).

Definition enableVTSequences : FM unit :=
  fun fs w =>
    match host w with
    | Win32 c => enableVTSequences_win32 c fs (count_enable w)
    | Posix => Returned (tt, fs) (set_handleVTSequences true (count_enable w))
    end.

Definition vt_gate : FM unit :=
  fun fs w => if negb (handleVTSequences w) then enableVTSequences fs w
              else Returned (tt, fs) w.

Definition checkPosition (position : Z) : FM unit :=
  if negb (position =? 1) && negb (position =? 0) then
    put cerr "Position must be either 0 or 1" ;;;
    lift (exit EXIT_FAILURE)
  else fret tt.

Definition gate_of (c : NamedColor) : FM unit :=
  match c with
  | Grey => vt_gate
  | _ => fret tt
  end.

(** [c<position>(ostream& os)] *)
Definition named_pos_os (c : NamedColor) (position : Z) (os : stream) : FM stream :=
  gate_of c ;;;
  checkPosition position ;;;
  put os (if position =? TEXT then at_key color_text (key c)
          else at_key color_background (key c)) ;;;
  fret os.

(** [c(ostream& os)] *)
Definition named_os (c : NamedColor) (os : stream) : FM stream :=
  gate_of c ;;;
  put os (at_key color_text (key c)) ;;;
  fret os.

(** [on_c(ostream& os)] *)
Definition on_named_os (c : NamedColor) (os : stream) : FM stream :=
  gate_of c ;;;
  put os (at_key color_background (key c)) ;;;
  fret os.

(** [color<position, red, green, blue>(ostream& os)] *)
Definition color_pos_os (position red green blue : Z) (os : stream) : FM stream :=
  checkPosition position ;;;
  vt_gate ;;;
  put os (getColor position red green blue) ;;;
  fret os.

(** [color<red, green, blue>(ostream& os)] *)
Definition color_os (red green blue : Z) (os : stream) : FM stream :=
  vt_gate ;;;
  put os (colorBackground0 red green blue) ;;;
  fret os.

(** [on_color<red, green, blue>(ostream& os)] *)
Definition on_color_os (red green blue : Z) (os : stream) : FM stream :=
  vt_gate ;;;
  put os (colorBackground0 red green blue) ;;;
  fret os.

Definition bold_os (os : stream) : FM stream :=
  vt_gate ;;; put os (ESC +:+ "[1m") ;;; fret os.

Definition italic_os (os : stream) : FM stream :=
  vt_gate ;;; put os (ESC +:+ "[3m") ;;; fret os.

Definition underline_os (os : stream) : FM stream :=
  vt_gate ;;; put os (ESC +:+ "[4m") ;;; fret os.

Definition reverse_os (os : stream) : FM stream :=
  vt_gate ;;; put os (ESC +:+ "[7m") ;;; fret os.

Definition reset_os (os : stream) : FM stream :=
  vt_gate ;;; put os RESET_STYLE ;;; fret os.

Definition call_os (e : os_entry) (os : stream) : FM stream :=
  match e with
  | NamedPosOs c position => named_pos_os c position os
  | NamedOs c => named_os c os
  | OnNamedOs c => on_named_os c os
  | ColorPosOs position r g b => color_pos_os position r g b os
  | ColorOs r g b => color_os r g b os
  | OnColorOs r g b => on_color_os r g b os
  | StyleOs Bold => bold_os os
  | StyleOs Italic => italic_os os
  | StyleOs Underline => underline_os os
  | StyleOs Reverse => reverse_os os
  | ResetOs => reset_os os
  end.

(** The stream form of a request: the operation that is given the
    target. *)
Definition apply (q : request) (os : stream) : FM stream :=
  match q with
  | Named c t => named_pos_os c (position_of t) os
  | Styled s => call_os (StyleOs s) os
  | Rgb t r g b => color_pos_os (position_of t) r g b os
  end.




End Formatted.

(** The formatting state a formatted output leaves: the width is back
    to 0. *)
Definition ios_reset (st : ios) : ios :=
  mkIos true 0 (ios_fill st) (ios_left st).


(** The stream is good and its field width asks for no padding of [s]. *)
Definition unpadded (os : stream) (fs : gmap stream ios) (s : string) : Prop :=
  ios_good (ios_at os fs) = true /\
  (ios_width (ios_at os fs) <= String.length s)%nat.

(** Every stream is in the initial formatting state. *)
Definition all_default (fs : gmap stream ios) : Prop :=
  forall o, ios_at o fs = default_ios.

(** A computation over formatting states that, on streams in the initial
    state, does what the computation over plain streams does. *)
Definition refines {A} (fm : Formatted.FM A) (m : M A) : Prop :=
  forall fs w,
    all_default fs ->
    forget (fm fs w) = m w /\
    forall r w', fm fs w = Returned r w' -> all_default (snd r).

(** * Properties *)

(** ** The lookup tables *)

Lemma keys_present (c : NamedColor) :
  is_Some (color_text !! key c) /\ is_Some (color_background !! key c).
Proof. destruct c; vm_compute; split; eexists; reflexivity. Qed.

(** C3: for the eight base hues in the order grey, red, green, yellow,
    blue, magenta, cyan, white (digit k = 0..7), [color_text] holds
    ESC[3km under the hue and ESC[1;3km under its bright name, and
    [color_background] holds ESC[4km and ESC[1;4km; each table has these
    sixteen entries and no other. *)
Theorem lookup_tables_literal :
  size color_text = 16%nat /\ size color_background = 16%nat /\
  forall (k : nat) (hue : string),
    hues !! k = Some hue ->
    color_text !! hue
      = Some (String ESC_byte ("[3" +:+ to_string (Z.of_nat k) +:+ "m")) /\
    color_text !! ("bright " +:+ hue)
      = Some (String ESC_byte ("[1;3" +:+ to_string (Z.of_nat k) +:+ "m")) /\
    color_background !! hue
      = Some (String ESC_byte ("[4" +:+ to_string (Z.of_nat k) +:+ "m")) /\
    color_background !! ("bright " +:+ hue)
      = Some (String ESC_byte ("[1;4" +:+ to_string (Z.of_nat k) +:+ "m")).
Proof.
  split; [vm_compute; reflexivity|].
  split; [vm_compute; reflexivity|].
  intros k hue Hk.
  do 8 (destruct k as [|k];
        [injection Hk as <-; vm_compute; repeat split; reflexivity|]).
  discriminate Hk.
Qed.

Lemma lookup_tables_literal_witness :
  hues !! 1%nat = Some "red" /\
  color_text !! "red" = Some (String ESC_byte "[31m") /\
  color_background !! "bright red" = Some (String ESC_byte "[1;41m").
Proof.
  destruct lookup_tables_literal as (_ & _ & H).
  destruct (H 1%nat "red" eq_refl) as (H1 & _ & _ & H4).
  split; [reflexivity|]. split; [exact H1 | exact H4].
Defined.

(** ** Running the operations *)

Lemma append_nil (s : string) : "" +:+ s = s.
Proof. reflexivity. Qed.

Lemma append_cons c (a s : string) : String c a +:+ s = String c (a +:+ s).
Proof. reflexivity. Qed.

Lemma append_assoc (a b c : string) : (a +:+ b) +:+ c = a +:+ b +:+ c.
Proof.
  induction a as [|x a IH]; [reflexivity|].
  rewrite !append_cons, IH. reflexivity.
Qed.

Lemma length_append (a b : string) :
  String.length (a +:+ b) = (String.length a + String.length b)%nat.
Proof.
  induction a as [|x a IH]; [reflexivity|].
  rewrite append_cons. simpl. rewrite IH. reflexivity.
Qed.

Lemma bind_Returned {A B} (m : M A) (k : A -> M B) w a w' :
  m w = Returned a w' -> bind m k w = k a w'.
Proof. intros H. unfold bind. rewrite H. reflexivity. Qed.

Lemma bind_Exited {A B} (m : M A) (k : A -> M B) w st w' :
  m w = Exited st w' -> bind m k w = Exited st w'.
Proof. intros H. unfold bind. rewrite H. reflexivity. Qed.

Lemma streams_enabled w : streams (enabled w) = streams w.
Proof. unfold enabled. destruct (handleVTSequences w); reflexivity. Qed.

Lemma written_enabled os w : written os (enabled w) = written os w.
Proof. unfold written. rewrite streams_enabled. reflexivity. Qed.

Lemma host_enabled w : host (enabled w) = host w.
Proof. unfold enabled. destruct (handleVTSequences w); reflexivity. Qed.


(** With the capability available the statement returns, and leaves the
    flag set. *)
Lemma vt_gate_capable w :
  capable w = true -> vt_gate w = Returned tt (enabled w).
Proof.
  unfold capable, vt_gate, enabled, enableVTSequences.
  destruct (handleVTSequences w); simpl; [reflexivity|].
  destruct (host w) as [|[h g s]]; simpl; [reflexivity|].
  intros H. apply andb_prop in H as [H Hs]. apply andb_prop in H as [Hh Hg].
  subst. reflexivity.
Qed.

(** Without it the statement writes a diagnostic to [std::cerr] and ends
    the process, the flag still unset. *)
Lemma vt_gate_fatal w :
  capable w = false ->
  exists (w' : world) (msg : string),
    vt_gate w = Exited EXIT_FAILURE w'
    /\ handleVTSequences w' = false
    /\ msg <> ""
    /\ written cerr w' = written cerr w +:+ msg.
Proof.
  unfold capable, vt_gate, enableVTSequences.
  destruct (handleVTSequences w) eqn:E; simpl; [discriminate|].
  destruct (host w) as [|[h g s]]; simpl; [discriminate|].
  destruct h, g, s; simpl; try discriminate; intros _;
    eexists; eexists; (split; [reflexivity|]); (split; [exact E|]);
    unfold written; simpl; rewrite !lookup_insert_eq; simpl;
    rewrite append_assoc; (split; [|reflexivity]); discriminate.
Qed.

Lemma gate_of_capable c w :
  capable w = true ->
  exists w', gate_of c w = Returned tt w' /\ streams w' = streams w.
Proof.
  intros H. destruct c; simpl;
    first [ exists (enabled w); split;
            [apply vt_gate_capable, H | apply streams_enabled]
          | exists w; split; reflexivity ].
Qed.

Lemma checkPosition_target t w : checkPosition (position_of t) w = Returned tt w.
Proof. destruct t; reflexivity. Qed.

Lemma put_streams os s w :
  put os s w = Returned tt (set_streams (<[os := written os w +:+ s]> (streams w)) w).
Proof. reflexivity. Qed.

(** Stepping through a body: the capability statement, the position check,
    then what is left. *)
Ltac step_gate Hc :=
  match goal with
  | |- context [bind (gate_of ?c) ?k ?w] =>
      let w1 := fresh "w" in
      let Hg := fresh "Hg" in
      let Hs := fresh "Hs" in
      destruct (gate_of_capable c w Hc) as (w1 & Hg & Hs);
      rewrite (bind_Returned _ _ _ _ _ Hg)
  | |- context [bind vt_gate ?k ?w] =>
      rewrite (bind_Returned _ _ _ _ _ (vt_gate_capable w Hc))
  end.

Ltac step_check :=
  match goal with
  | |- context [bind (checkPosition (position_of ?t)) ?k ?w] =>
      rewrite (bind_Returned _ _ _ _ _ (checkPosition_target t w))
  end.

Lemma lookup_style_literal s : lookup_style s = style_literal s.
Proof. destruct s; vm_compute; reflexivity. Qed.

Lemma style_str_returns s text w :
  capable w = true ->
  call_str (StyleStr s) text w
  = Returned (style_literal s +:+ text +:+ RESET_STYLE) (enabled w).
Proof.
  intros Hc. destruct s; simpl;
    unfold bold_str, italic_str, underline_str, reverse_str;
    step_gate Hc; reflexivity.
Qed.

Lemma style_os_returns s os w :
  capable w = true ->
  call_os (StyleOs s) os w
  = Returned os (set_streams (<[os := written os w +:+ style_literal s]> (streams w))
                             (enabled w)).
Proof.
  intros Hc. destruct s; simpl;
    unfold bold_os, italic_os, underline_os, reverse_os;
    step_gate Hc; unfold bind; rewrite put_streams, written_enabled, streams_enabled;
    reflexivity.
Qed.

Lemma reset_str_returns text w :
  capable w = true ->
  reset_str text w = Returned (text +:+ RESET_STYLE) (enabled w).
Proof. intros Hc. unfold reset_str. step_gate Hc. reflexivity. Qed.

Lemma reset_os_returns os w :
  capable w = true ->
  reset_os os w
  = Returned os (set_streams (<[os := written os w +:+ RESET_STYLE]> (streams w))
                             (enabled w)).
Proof.
  intros Hc. unfold reset_os. step_gate Hc.
  unfold bind. rewrite put_streams, written_enabled, streams_enabled. reflexivity.
Qed.

(** ** Styles and reset *)

(** C9: bold, italic, underline and reverse are ESC[1m, ESC[3m, ESC[4m and
    ESC[7m, and reset is ESC[0m, in the [styles] table (which has these four
    entries only), in [RESET_STYLE], and in what the style and reset
    operations write and return. *)
Theorem styles_and_reset_literal :
  (styles !! "bold" = Some (String ESC_byte "[1m") /\
   styles !! "italic" = Some (String ESC_byte "[3m") /\
   styles !! "underline" = Some (String ESC_byte "[4m") /\
   styles !! "reverse" = Some (String ESC_byte "[7m") /\
   size styles = 4%nat /\
   RESET_STYLE = String ESC_byte "[0m") /\
  forall (text : string) (os : stream) (w : world),
    capable w = true ->
    (bold_str text w
       = Returned (String ESC_byte "[1m" +:+ text +:+ String ESC_byte "[0m") (enabled w) /\
     italic_str text w
       = Returned (String ESC_byte "[3m" +:+ text +:+ String ESC_byte "[0m") (enabled w) /\
     underline_str text w
       = Returned (String ESC_byte "[4m" +:+ text +:+ String ESC_byte "[0m") (enabled w) /\
     reverse_str text w
       = Returned (String ESC_byte "[7m" +:+ text +:+ String ESC_byte "[0m") (enabled w)) /\
    (bold_os os w
       = Returned os (set_streams (appended os (String ESC_byte "[1m") w) (enabled w)) /\
     italic_os os w
       = Returned os (set_streams (appended os (String ESC_byte "[3m") w) (enabled w)) /\
     underline_os os w
       = Returned os (set_streams (appended os (String ESC_byte "[4m") w) (enabled w)) /\
     reverse_os os w
       = Returned os (set_streams (appended os (String ESC_byte "[7m") w) (enabled w)) /\
     reset_os os w
       = Returned os (set_streams (appended os (String ESC_byte "[0m") w) (enabled w))).
Proof.
  split; [vm_compute; repeat split; reflexivity|].
  intros text os w Hc. split.
  - repeat split.
    + exact (style_str_returns Bold text w Hc).
    + exact (style_str_returns Italic text w Hc).
    + exact (style_str_returns Underline text w Hc).
    + exact (style_str_returns Reverse text w Hc).
  - repeat split.
    + exact (style_os_returns Bold os w Hc).
    + exact (style_os_returns Italic os w Hc).
    + exact (style_os_returns Underline os w Hc).
    + exact (style_os_returns Reverse os w Hc).
    + exact (reset_os_returns os w Hc).
Qed.

Lemma styles_and_reset_literal_witness :
  capable (initial Posix ∅) = true /\
  bold_str "bold" (initial Posix ∅)
  = Returned (String ESC_byte "[1mbold" +:+ String ESC_byte "[0m")
             (enabled (initial Posix ∅)).
Proof.
  split; [reflexivity|].
  destruct styles_and_reset_literal as [_ H].
  destruct (H "bold" 1%nat (initial Posix ∅) eq_refl) as [[Hb _] _].
  exact Hb.
Defined.

(** ** The string form *)

Lemma named_pos_str_returns c t text w :
  capable w = true ->
  exists w', named_pos_str c (position_of t) text w
             = Returned (lookup_color c t +:+ text +:+ RESET_STYLE) w'
             /\ streams w' = streams w.
Proof.
  intros Hc. unfold named_pos_str. step_gate Hc. step_check.
  exists w0. split; [|exact Hs]. destruct t; reflexivity.
Qed.

Lemma named_str_returns c text w :
  capable w = true ->
  exists w', named_str c text w
             = Returned (lookup_color c Foreground +:+ text +:+ RESET_STYLE) w'
             /\ streams w' = streams w.
Proof.
  intros Hc. unfold named_str. step_gate Hc.
  exists w0. split; [reflexivity | exact Hs].
Qed.

Lemma on_named_str_returns c text w :
  capable w = true ->
  exists w', on_named_str c text w
             = Returned (lookup_color c Background +:+ text +:+ RESET_STYLE) w'
             /\ streams w' = streams w.
Proof.
  intros Hc. unfold on_named_str. step_gate Hc.
  exists w0. split; [reflexivity | exact Hs].
Qed.

Lemma color_pos_str_returns t r g b text w :
  capable w = true ->
  color_pos_str (position_of t) r g b text w
  = Returned (rgb t r g b +:+ text +:+ RESET_STYLE) (enabled w).
Proof.
  intros Hc. unfold color_pos_str. step_check. step_gate Hc.
  destruct t; reflexivity.
Qed.

Lemma color_str_returns r g b text w :
  capable w = true ->
  color_str r g b text w
  = Returned (rgb Foreground r g b +:+ text +:+ RESET_STYLE) (enabled w).
Proof. intros Hc. unfold color_str. step_gate Hc. reflexivity. Qed.

Lemma on_color_str_returns r g b text w :
  capable w = true ->
  on_color_str r g b text w
  = Returned (rgb Foreground r g b +:+ text +:+ RESET_STYLE) (enabled w).
Proof. intros Hc. unfold on_color_str. step_gate Hc. reflexivity. Qed.

(** The functions of the colours other than grey have no capability
    statement: they return in every world and leave it as it was. *)
Lemma red_str_returns text w :
  red_str text w
  = Returned (String ESC_byte "[31m" +:+ text +:+ String ESC_byte "[0m") w.
Proof. reflexivity. Qed.

Lemma wrap_returns q text w :
  capable w = true ->
  exists w', wrap q text w = Returned (resolve q +:+ text +:+ RESET_STYLE) w'
             /\ streams w' = streams w.
Proof.
  intros Hc. destruct q as [c t | s | t r g b]; simpl wrap; simpl resolve.
  - apply named_pos_str_returns, Hc.
  - exists (enabled w). split; [|apply streams_enabled].
    rewrite lookup_style_literal. apply style_str_returns, Hc.
  - exists (enabled w). split; [|apply streams_enabled].
    apply color_pos_str_returns, Hc.
Qed.

(** C2: the string form of a request returns the escape sequence the
    request resolves to, then the text unchanged, then the reset sequence
    ESC[0m, and writes to no stream.  This holds for the operation that is
    given the target, for the shorthands of the named colours ([c(text)]
    for the foreground, [on_c(text)] for the background) and for
    [color<r,g,b>(text)]; in particular [red(text)] is ESC[31m, [text],
    ESC[0m. *)
Theorem wrap_string_form :
  (forall (q : request) (text : string) (w : world),
     capable w = true ->
     exists w',
       wrap q text w
       = Returned (resolve q +:+ text +:+ String ESC_byte "[0m") w'
       /\ streams w' = streams w) /\
  (forall (c : NamedColor) (text : string) (w : world),
     capable w = true ->
     (exists w',
        named_str c text w
        = Returned (resolve (Named c Foreground) +:+ text +:+ String ESC_byte "[0m") w'
        /\ streams w' = streams w) /\
     (exists w',
        on_named_str c text w
        = Returned (resolve (Named c Background) +:+ text +:+ String ESC_byte "[0m") w'
        /\ streams w' = streams w)) /\
  (forall (r g b : Z) (text : string) (w : world),
     capable w = true ->
     color_str r g b text w
     = Returned (resolve (Rgb Foreground r g b) +:+ text +:+ String ESC_byte "[0m")
                (enabled w)) /\
  (forall (text : string) (w : world),
     red_str text w
     = Returned (String ESC_byte "[31m" +:+ text +:+ String ESC_byte "[0m") w).
Proof.
  split; [|split; [|split]].
  - intros q text w Hc. apply wrap_returns, Hc.
  - intros c text w Hc. split.
    + apply named_str_returns, Hc.
    + apply on_named_str_returns, Hc.
  - intros r g b text w Hc. apply color_str_returns, Hc.
  - exact red_str_returns.
Qed.

Lemma wrap_string_form_witness :
  capable (initial (Win32 (mkConsole true true true)) ∅) = true /\
  exists w',
    wrap (Named Red Foreground) "hello" (initial (Win32 (mkConsole true true true)) ∅)
    = Returned (String ESC_byte "[31mhello" +:+ String ESC_byte "[0m") w'.
Proof.
  split; [reflexivity|].
  destruct wrap_string_form as [H _].
  destruct (H (Named Red Foreground) "hello"
              (initial (Win32 (mkConsole true true true)) ∅) eq_refl)
    as (w' & Hw & _).
  exists w'. exact Hw.
Defined.

(** ** The stream form *)

Lemma put_ret os s w0 w :
  streams w0 = streams w ->
  (put os s ;; ret os) w0 = Returned os (set_streams (appended os s w) w0).
Proof.
  intros Hs. unfold bind, appended, written. rewrite put_streams.
  unfold written. rewrite Hs. reflexivity.
Qed.

Lemma named_pos_os_returns c t os w :
  capable w = true ->
  exists w', named_pos_os c (position_of t) os w = Returned os w'
             /\ streams w' = appended os (lookup_color c t) w.
Proof.
  intros Hc. unfold named_pos_os. step_gate Hc. step_check.
  rewrite (put_ret _ _ _ _ Hs). eexists. split; [reflexivity|].
  destruct t; reflexivity.
Qed.

Lemma named_os_returns c os w :
  capable w = true ->
  exists w', named_os c os w = Returned os w'
             /\ streams w' = appended os (lookup_color c Foreground) w.
Proof.
  intros Hc. unfold named_os. step_gate Hc.
  rewrite (put_ret _ _ _ _ Hs). eexists. split; reflexivity.
Qed.

Lemma on_named_os_returns c os w :
  capable w = true ->
  exists w', on_named_os c os w = Returned os w'
             /\ streams w' = appended os (lookup_color c Background) w.
Proof.
  intros Hc. unfold on_named_os. step_gate Hc.
  rewrite (put_ret _ _ _ _ Hs). eexists. split; reflexivity.
Qed.

Lemma color_pos_os_returns t r g b os w :
  capable w = true ->
  color_pos_os (position_of t) r g b os w
  = Returned os (set_streams (appended os (rgb t r g b) w) (enabled w)).
Proof.
  intros Hc. unfold color_pos_os. step_check. step_gate Hc.
  apply put_ret, streams_enabled.
Qed.

Lemma color_os_returns r g b os w :
  capable w = true ->
  color_os r g b os w
  = Returned os (set_streams (appended os (rgb Background r g b) w) (enabled w)).
Proof.
  intros Hc. unfold color_os. step_gate Hc. apply put_ret, streams_enabled.
Qed.

Lemma on_color_os_returns r g b os w :
  capable w = true ->
  on_color_os r g b os w
  = Returned os (set_streams (appended os (rgb Background r g b) w) (enabled w)).
Proof.
  intros Hc. unfold on_color_os. step_gate Hc. apply put_ret, streams_enabled.
Qed.

Lemma red_os_returns os w :
  red_os os w
  = Returned os (set_streams (appended os (String ESC_byte "[31m") w) w).
Proof. reflexivity. Qed.


(** ** reset on a string *)

Lemma position_ok_target position :
  (position =? TEXT) || (position =? BACKGROUND) = true ->
  exists t, position = position_of t.
Proof.
  intros H. apply orb_prop in H as [H|H]; apply Z.eqb_eq in H.
  - exists Foreground. exact H.
  - exists Background. exact H.
Qed.

Lemma lookup_color_nonempty c t : lookup_color c t <> "".
Proof. destruct c, t; vm_compute; discriminate. Qed.

Lemma rgb_nonempty t r g b : rgb t r g b <> "".
Proof. destruct t; unfold rgb, getColor; simpl; discriminate. Qed.

(** C10: [reset(text)] returns the text followed by ESC[0m, with nothing in
    front; every other string operation returns a non-empty escape sequence,
    then the text, then ESC[0m. *)
Theorem reset_string_suffix_only :
  forall (text : string) (w : world),
    capable w = true ->
    reset_str text w = Returned (text +:+ String ESC_byte "[0m") (enabled w) /\
    forall e : str_entry,
      e <> ResetStr -> position_ok e = true ->
      exists (p : string) (w' : world),
        p <> "" /\
        call_str e text w = Returned (p +:+ text +:+ String ESC_byte "[0m") w'.
Proof.
  intros text w Hc. split; [apply reset_str_returns, Hc|].
  intros e He Hp.
  destruct e as [c position | c | c | position r g b | r g b | r g b | s |];
    simpl call_str; simpl in Hp.
  - destruct (position_ok_target _ Hp) as [t ->].
    destruct (named_pos_str_returns c t text w Hc) as (w' & H & _).
    exists (lookup_color c t), w'. split; [apply lookup_color_nonempty | exact H].
  - destruct (named_str_returns c text w Hc) as (w' & H & _).
    exists (lookup_color c Foreground), w'.
    split; [apply lookup_color_nonempty | exact H].
  - destruct (on_named_str_returns c text w Hc) as (w' & H & _).
    exists (lookup_color c Background), w'.
    split; [apply lookup_color_nonempty | exact H].
  - destruct (position_ok_target _ Hp) as [t ->].
    exists (rgb t r g b), (enabled w).
    split; [apply rgb_nonempty | apply color_pos_str_returns, Hc].
  - exists (rgb Foreground r g b), (enabled w).
    split; [apply rgb_nonempty | apply color_str_returns, Hc].
  - exists (rgb Foreground r g b), (enabled w).
    split; [apply rgb_nonempty | apply on_color_str_returns, Hc].
  - exists (style_literal s), (enabled w). split.
    + destruct s; discriminate.
    + apply (style_str_returns s text w Hc).
  - contradiction He; reflexivity.
Qed.

Lemma reset_string_suffix_only_witness :
  capable (initial Posix ∅) = true /\
  reset_str "plain" (initial Posix ∅)
  = Returned ("plain" +:+ String ESC_byte "[0m") (enabled (initial Posix ∅)).
Proof.
  split; [reflexivity|].
  exact (proj1 (reset_string_suffix_only "plain" (initial Posix ∅) eq_refl)).
Defined.

(** ** The RGB generator *)

Lemma to_string_decimal_upto :
  forallb (fun k => decimal_of (Z.of_nat k) (to_string (Z.of_nat k)))
          (seq 0 256) = true.
Proof. vm_compute. reflexivity. Qed.

(** [to_string] of a [uint8_t] is its decimal numeral. *)
Lemma to_string_decimal n : uint8 n -> decimal_of n (to_string n) = true.
Proof.
  intros [Hlo Hhi].
  assert (Hin : In (Z.to_nat n) (seq 0 256)) by (apply in_seq; lia).
  pose proof (proj1 (forallb_forall _ _) to_string_decimal_upto _ Hin) as H.
  cbv beta in H. rewrite Z2Nat.id in H by exact Hlo. exact H.
Qed.

(** C4: for components in 0..255, [getColor] gives ESC[38;2;R;G;Bm for the
    text position and ESC[48;2;R;G;Bm for the background position, where R,
    G and B are the decimal numerals of the components without leading
    zeros; [rgb(Foreground,255,0,128)] is ESC[38;2;255;0;128m and
    [rgb(Background,0,0,0)] is ESC[48;2;0;0;0m. *)
Theorem getColor_rgb_sequence :
  (forall r g b : Z,
     uint8 r -> uint8 g -> uint8 b ->
     exists R G B : string,
       decimal_of r R = true /\ decimal_of g G = true /\ decimal_of b B = true /\
       getColor TEXT r g b
       = String ESC_byte ("[38;2;" +:+ R +:+ ";" +:+ G +:+ ";" +:+ B +:+ "m") /\
       getColor BACKGROUND r g b
       = String ESC_byte ("[48;2;" +:+ R +:+ ";" +:+ G +:+ ";" +:+ B +:+ "m") /\
       rgb Foreground r g b = getColor TEXT r g b /\
       rgb Background r g b = getColor BACKGROUND r g b) /\
  rgb Foreground 255 0 128 = String ESC_byte "[38;2;255;0;128m" /\
  rgb Background 0 0 0 = String ESC_byte "[48;2;0;0;0m".
Proof.
  split; [|split; reflexivity].
  intros r g b Hr Hg Hb.
  exists (to_string r), (to_string g), (to_string b).
  repeat split; try (apply to_string_decimal; assumption).
Qed.

Lemma getColor_rgb_sequence_witness :
  uint8 7 /\ uint8 42 /\ uint8 255 /\
  exists R G B : string,
    decimal_of 7 R = true /\ decimal_of 42 G = true /\ decimal_of 255 B = true /\
    getColor TEXT 7 42 255
    = String ESC_byte ("[38;2;" +:+ R +:+ ";" +:+ G +:+ ";" +:+ B +:+ "m").
Proof.
  assert (H7 : uint8 7) by (unfold uint8; lia).
  assert (H42 : uint8 42) by (unfold uint8; lia).
  assert (H255 : uint8 255) by (unfold uint8; lia).
  split; [exact H7|]. split; [exact H42|]. split; [exact H255|].
  destruct (proj1 getColor_rgb_sequence 7 42 255 H7 H42 H255)
    as (R & G & B & HR & HG & HB & Ht & _).
  exists R, G, B. auto.
Defined.

(** ** The capability flag along a run *)

Create HintDb flag.

Lemma keeps_flag_ret {A} (a : A) : keeps_flag (ret a).
Proof. intros w H. exact H. Qed.

Lemma keeps_flag_exit {A} st : keeps_flag (@exit A st).
Proof. intros w H. exact H. Qed.

Lemma keeps_flag_put os s : keeps_flag (put os s).
Proof. intros w H. exact H. Qed.

Lemma keeps_flag_bind {A B} (m : M A) (k : A -> M B) :
  keeps_flag m -> (forall a, keeps_flag (k a)) -> keeps_flag (bind m k).
Proof.
  intros Hm Hk w H. unfold bind. specialize (Hm w H).
  destruct (m w) as [a w'|st w']; simpl in *; [apply Hk, Hm | exact Hm].
Qed.

Lemma keeps_flag_vt_gate : keeps_flag vt_gate.
Proof. intros w H. unfold vt_gate. rewrite H. exact H. Qed.

Lemma keeps_flag_checkPosition position : keeps_flag (checkPosition position).
Proof.
  unfold checkPosition.
  destruct (negb (position =? 1) && negb (position =? 0)).
  - apply keeps_flag_bind; [apply keeps_flag_put | intros _; apply keeps_flag_exit].
  - apply keeps_flag_ret.
Qed.

Lemma keeps_flag_gate_of c : keeps_flag (gate_of c).
Proof. destruct c; simpl; first [apply keeps_flag_vt_gate | apply keeps_flag_ret]. Qed.

#[local] Hint Resolve keeps_flag_ret keeps_flag_exit keeps_flag_put keeps_flag_bind
  keeps_flag_vt_gate keeps_flag_checkPosition keeps_flag_gate_of : flag.

Lemma keeps_flag_call_str e text : keeps_flag (call_str e text).
Proof.
  destruct e as [c p | c | c | p r g b | r g b | r g b | [] |]; simpl;
    unfold named_pos_str, named_str, on_named_str, color_pos_str, color_str,
      on_color_str, bold_str, italic_str, underline_str, reverse_str, reset_str;
    auto 10 with flag.
Qed.

Lemma keeps_flag_call_os e os : keeps_flag (call_os e os).
Proof.
  destruct e as [c p | c | c | p r g b | r g b | r g b | [] |]; simpl;
    unfold named_pos_os, named_os, on_named_os, color_pos_os, color_os,
      on_color_os, bold_os, italic_os, underline_os, reverse_os, reset_os;
    auto 10 with flag.
Qed.

Lemma keeps_flag_invoke c : keeps_flag (invoke c).
Proof.
  destruct c; simpl; apply keeps_flag_bind;
    auto using keeps_flag_call_str, keeps_flag_call_os with flag.
Qed.

Lemma all_true_replicate (l : list bool) :
  Forall (fun b => b = true) l -> l = replicate (length l) true.
Proof. induction 1 as [|b l -> _ IH]; simpl; [reflexivity | f_equal; exact IH]. Qed.

(** Once set, the flag is set in every later world of the run. *)
Lemma flag_trace_set cs : forall w,
  handleVTSequences w = true ->
  Forall (fun b => b = true) (flag_trace cs w).
Proof.
  unfold flag_trace.
  induction cs as [|c cs IH]; intros w H; simpl.
  - repeat constructor. exact H.
  - constructor; [exact H|].
    pose proof (keeps_flag_invoke c w H) as Hk.
    destruct (invoke c w) as [v w'|st w']; simpl in *.
    + apply IH, Hk.
    + repeat constructor. exact Hk.
Qed.

Lemma flag_trace_shape cs : forall w,
  handleVTSequences w = false ->
  exists n m, flag_trace cs w = (replicate (S n) false ++ replicate m true)%list.
Proof.
  induction cs as [|c cs IH]; intros w H.
  - exists 0%nat, 0%nat. unfold flag_trace. simpl. rewrite H. reflexivity.
  - unfold flag_trace. simpl. rewrite H.
    destruct (invoke c w) as [v w'|st w'].
    + destruct (handleVTSequences w') eqn:E.
      * exists 0%nat, (length (flag_trace cs w')). simpl. f_equal.
        apply all_true_replicate, flag_trace_set, E.
      * destruct (IH w' E) as (n & m & Hnm). exists (S n), m.
        fold (flag_trace cs w'). rewrite Hnm. reflexivity.
    + simpl. destruct (handleVTSequences w') eqn:E.
      * exists 0%nat, 1%nat. reflexivity.
      * exists 1%nat, 0%nat. reflexivity.
Qed.

(** C6: [handleVTSequences] starts false, and along every sequence of
    calls of the styling operations, on every platform, the values of the
    flag are some [false]s followed by some [true]s: it changes at most
    once, from false to true, and every call after the change finds it
    true. *)
Theorem capability_flag_monotone :
  forall (p : platform) (s : gmap stream string) (cs : list call),
    handleVTSequences (initial p s) = false /\
    (exists n m : nat,
        flag_trace cs (initial p s) = (replicate (S n) false ++ replicate m true)%list) /\
    (forall i j : nat,
        (i <= j)%nat ->
        flag_trace cs (initial p s) !! i = Some true ->
        (j < length (flag_trace cs (initial p s)))%nat ->
        flag_trace cs (initial p s) !! j = Some true).
Proof.
  intros p s cs. split; [reflexivity|].
  destruct (flag_trace_shape cs (initial p s) eq_refl) as (n & m & H).
  split; [exists n, m; exact H|].
  rewrite H. intros i j Hij Hi Hj.
  rewrite length_app, !length_replicate in Hj.
  destruct (decide (i < S n)%nat) as [Hlt|Hge].
  - rewrite lookup_app_l in Hi by (rewrite length_replicate; lia).
    apply lookup_replicate in Hi as [Hi _]. discriminate Hi.
  - rewrite lookup_app_r by (rewrite length_replicate; lia).
    rewrite length_replicate. apply lookup_replicate. split; [reflexivity | lia].
Qed.

Lemma capability_flag_monotone_witness :
  flag_trace [CallStr (NamedStr Red) "a"; CallOs (StyleOs Bold) 1%nat;
              CallStr ResetStr "b"] (initial Posix ∅)
  = [false; false; true; true] /\
  flag_trace [CallStr (NamedStr Red) "a"; CallOs (StyleOs Bold) 1%nat;
              CallStr ResetStr "b"] (initial Posix ∅) !! 3%nat = Some true.
Proof.
  split; [reflexivity|].
  destruct (capability_flag_monotone Posix ∅
              [CallStr (NamedStr Red) "a"; CallOs (StyleOs Bold) 1%nat;
               CallStr ResetStr "b"]) as (_ & _ & H).
  apply (H 2%nat 3%nat); [lia | reflexivity | simpl; lia].
Defined.

(** ** Which operations reach the enabler *)

(** The functions of a colour other than grey never touch the capability
    state. *)
Lemma gate_of_other c w : c <> Grey -> gate_of c w = Returned tt w.
Proof. intros H. destruct c; try reflexivity. contradiction H; reflexivity. Qed.

Lemma named_str_other c text w :
  c <> Grey ->
  named_str c text w
  = Returned (at_key color_text (key c) +:+ text +:+ RESET_STYLE) w.
Proof.
  intros H. unfold named_str.
  rewrite (bind_Returned _ _ _ _ _ (gate_of_other c w H)). reflexivity.
Qed.

Lemma counts_enabler_ret {A} (a : A) : counts_enabler (ret a).
Proof. intros w. simpl. split; [intros H; split; [exact H | reflexivity]|]. left. split; [assumption | reflexivity]. Qed.

Lemma counts_enabler_exit {A} st : counts_enabler (@exit A st).
Proof. intros w. simpl. split; [reflexivity | lia]. Qed.

Lemma counts_enabler_put os s : counts_enabler (put os s).
Proof. intros w. simpl. split; [intros H; split; [exact H | reflexivity]|]. left. split; [assumption | reflexivity]. Qed.

Lemma counts_enabler_bind {A B} (m : M A) (k : A -> M B) :
  counts_enabler m -> (forall a, counts_enabler (k a)) -> counts_enabler (bind m k).
Proof.
  intros Hm Hk w. unfold bind. specialize (Hm w).
  destruct (m w) as [a w1|st w1]; [|exact Hm].
  destruct Hm as [Ht Hf]. specialize (Hk a w1).
  destruct (handleVTSequences w) eqn:E.
  - destruct (Ht eq_refl) as [E1 C1].
    destruct (k a w1) as [v w2|st w2].
    + destruct Hk as [Kt _]. destruct (Kt E1) as [E2 C2].
      split; [intros _; split; [exact E2 | congruence] | discriminate].
    + destruct Hk as [Kt _]. split; [intros _; rewrite (Kt E1); exact C1|].
      rewrite (Kt E1), C1. lia.
  - destruct (Hf eq_refl) as [[E1 C1]|[E1 C1]].
    + destruct (k a w1) as [v w2|st w2].
      * destruct Hk as [_ Kf]. split; [discriminate|]. intros _.
        destruct (Kf E1) as [[E2 C2]|[E2 C2]]; [left | right];
          (split; [exact E2 | congruence]).
      * destruct Hk as [_ Kle]. split; [discriminate | rewrite <- C1; exact Kle].
    + destruct (k a w1) as [v w2|st w2].
      * destruct Hk as [Kt _]. destruct (Kt E1) as [E2 C2].
        split; [discriminate|]. intros _. right. split; [exact E2 | congruence].
      * destruct Hk as [Kt _]. split; [discriminate|]. rewrite (Kt E1), C1. lia.
Qed.

Lemma counts_enabler_vt_gate : counts_enabler vt_gate.
Proof.
  intros w. unfold vt_gate. destruct (handleVTSequences w) eqn:E; simpl.
  - split; [intros _; split; [exact E | reflexivity] | discriminate].
  - unfold enableVTSequences. destruct (host w) as [|[[] [] []]]; simpl;
      first [ split; [discriminate | intros _; right; split; reflexivity]
            | split; [discriminate | lia] ].
Qed.

Lemma counts_enabler_checkPosition position : counts_enabler (checkPosition position).
Proof.
  unfold checkPosition.
  destruct (negb (position =? 1) && negb (position =? 0)).
  - apply counts_enabler_bind;
      [apply counts_enabler_put | intros _; apply counts_enabler_exit].
  - apply counts_enabler_ret.
Qed.

Lemma counts_enabler_gate_of c : counts_enabler (gate_of c).
Proof.
  destruct c; simpl; first [apply counts_enabler_vt_gate | apply counts_enabler_ret].
Qed.

#[local] Hint Resolve counts_enabler_ret counts_enabler_exit counts_enabler_put
  counts_enabler_bind counts_enabler_vt_gate counts_enabler_checkPosition
  counts_enabler_gate_of : flag.

Lemma counts_enabler_invoke c : counts_enabler (invoke c).
Proof.
  destruct c as [e text|e os]; simpl; apply counts_enabler_bind; auto with flag;
    destruct e as [c p | c | c | p r g b | r g b | r g b | [] |]; simpl;
    unfold named_pos_str, named_str, on_named_str, color_pos_str, color_str,
      on_color_str, bold_str, italic_str, underline_str, reverse_str, reset_str,
      named_pos_os, named_os, on_named_os, color_pos_os, color_os,
      on_color_os, bold_os, italic_os, underline_os, reverse_os, reset_os;
    auto 10 with flag.
Qed.

(** In no run is the enabler called twice. *)
Lemma enabler_at_most_once cs : forall w,
  (enable_calls w <= 1)%nat ->
  (handleVTSequences w = false -> enable_calls w = 0%nat) ->
  Forall (fun w' => (enable_calls w' <= 1)%nat) (run cs w).
Proof.
  induction cs as [|c cs IH]; intros w Hle H0; simpl.
  - constructor; [exact Hle | constructor].
  - constructor; [exact Hle|].
    pose proof (counts_enabler_invoke c w) as Hc.
    destruct (invoke c w) as [v w'|st w'].
    + destruct Hc as [Ht Hf]. destruct (handleVTSequences w) eqn:E.
      * destruct (Ht eq_refl) as [E1 C1]. apply IH; [lia | congruence].
      * specialize (H0 eq_refl).
        destruct (Hf eq_refl) as [[E1 C1]|[E1 C1]]; apply IH; try lia; congruence.
    + destruct Hc as [Ht Hle']. constructor; [|constructor].
      destruct (handleVTSequences w) eqn:E; [rewrite (Ht eq_refl); exact Hle|].
      rewrite (H0 eq_refl) in Hle'. exact Hle'.
Qed.

(** C1 (what the code does): in a fresh process, on any platform, a first
    call of [red(text)] or of [bright_grey<TEXT>(os)] returns without
    calling [enableVTSequences]: the call counter stays 0 and the flag
    false; a first call of [grey(text)] does call it once.  The capability
    statement is in the functions of grey, of the RGB colours, of the styles
    and of reset, and in none of the ninety functions of the other fifteen
    colours. *)
Theorem first_call_misses_enabler :
  forall (p : platform) (s : gmap stream string) (text : string) (os : stream),
    red_str text (initial p s)
    = Returned (String ESC_byte "[31m" +:+ text +:+ String ESC_byte "[0m")
               (initial p s) /\
    enable_calls (final (red_str text (initial p s))) = 0%nat /\
    handleVTSequences (final (red_str text (initial p s))) = false /\
    enable_calls (final (bright_grey_pos_os TEXT os (initial p s))) = 0%nat /\
    handleVTSequences (final (bright_grey_pos_os TEXT os (initial p s))) = false /\
    enable_calls (final (grey_str text (initial p s))) = 1%nat.
Proof.
  intros p s text os. repeat split.
  unfold grey_str, named_str. simpl gate_of. unfold bind, vt_gate, enableVTSequences.
  simpl. destruct p as [|[[] [] []]]; reflexivity.
Qed.

(** C5 (what the code does): [color<r,g,b>(text)] returns the foreground
    sequence 38;2 and [on_color<r,g,b>(os)] writes the background sequence
    48;2, but [color<r,g,b>(os)] writes the background sequence 48;2 and
    [on_color<r,g,b>(text)] returns the foreground sequence 38;2. *)
Theorem color_shorthand_families :
  forall (s : gmap stream string),
    color_str 255 0 128 "hi" (initial Posix s)
    = Returned (String ESC_byte "[38;2;255;0;128mhi" +:+ String ESC_byte "[0m")
               (enabled (initial Posix s)) /\
    written 1%nat (final (on_color_os 255 0 128 1%nat (initial Posix s)))
    = written 1%nat (initial Posix s) +:+ String ESC_byte "[48;2;255;0;128m" /\
    written 1%nat (final (color_os 255 0 128 1%nat (initial Posix s)))
    = written 1%nat (initial Posix s) +:+ String ESC_byte "[48;2;255;0;128m" /\
    on_color_str 255 0 128 "hi" (initial Posix s)
    = Returned (String ESC_byte "[38;2;255;0;128mhi" +:+ String ESC_byte "[0m")
               (enabled (initial Posix s)).
Proof.
  intros s. split; [reflexivity|]. split; [|split; [|reflexivity]].
  - rewrite (on_color_os_returns 255 0 128 1%nat (initial Posix s) eq_refl). simpl.
    unfold written at 1. simpl. unfold appended.
    rewrite lookup_insert_eq. reflexivity.
  - rewrite (color_os_returns 255 0 128 1%nat (initial Posix s) eq_refl). simpl.
    unfold written at 1. simpl. unfold appended.
    rewrite lookup_insert_eq. reflexivity.
Qed.

(** ** Removing escape sequences from the string form *)

Lemma params_len_bound s n :
  params_len s = Some n -> (n <= String.length s)%nat.
Proof.
  revert n. induction s as [|c s IH]; intros n; simpl; [discriminate|].
  destruct (is_param c).
  - destruct (params_len s) as [k|]; simpl; [|discriminate].
    intros [= <-]. specialize (IH k eq_refl). lia.
  - destruct (Ascii.eqb c "m"); [|discriminate]. intros [= <-]. lia.
Qed.

Lemma sequence_len_bound s n :
  sequence_len s = Some n -> (n <= String.length s)%nat.
Proof.
  destruct s as [|c [|d s]]; simpl; try discriminate.
  destruct (Ascii.eqb c ESC_byte && Ascii.eqb d "["); [|discriminate].
  destruct (params_len s) as [k|] eqn:E; simpl; [|discriminate].
  intros [= <-]. apply params_len_bound in E. lia.
Qed.

(** A sequence cut short by the next ESC is no sequence. *)
Lemma params_len_before_ESC a b :
  params_len (a +:+ String ESC_byte b) = params_len a.
Proof.
  induction a as [|c a IH]; simpl; [reflexivity|].
  rewrite IH. reflexivity.
Qed.

Lemma sequence_len_before_ESC a b :
  a <> "" -> sequence_len (a +:+ String ESC_byte b) = sequence_len a.
Proof.
  intros Ha. destruct a as [|c [|d a]]; [contradiction Ha; reflexivity | |].
  - simpl. rewrite andb_false_r. reflexivity.
  - simpl. rewrite params_len_before_ESC. reflexivity.
Qed.

Lemma strip_skip_before_ESC a b : forall k,
  (k <= String.length a)%nat ->
  strip_skip k (a +:+ String ESC_byte b)
  = strip_skip k a +:+ strip_skip 0 (String ESC_byte b).
Proof.
  induction a as [|c a IH]; intros k Hk.
  - simpl in Hk. assert (k = 0%nat) as -> by lia. reflexivity.
  - change (String c a +:+ String ESC_byte b)
      with (String c (a +:+ String ESC_byte b)).
    destruct k as [|k].
    + cbn [strip_skip].
      change (String c (a +:+ String ESC_byte b))
        with (String c a +:+ String ESC_byte b).
      rewrite sequence_len_before_ESC by discriminate.
      destruct (sequence_len (String c a)) as [[|j]|] eqn:E.
      * simpl. rewrite IH by lia. reflexivity.
      * apply sequence_len_bound in E. simpl in E.
        rewrite IH by lia. reflexivity.
      * simpl. rewrite IH by lia. reflexivity.
    + cbn [strip_skip]. simpl in Hk. apply IH. lia.
Qed.

(** A string that starts with a whole sequence. *)
Lemma params_len_all_params a s :
  all_params a = true ->
  params_len (a +:+ s) = option_map (Nat.add (String.length a)) (params_len s).
Proof.
  unfold all_params. induction a as [|c a IH].
  - intros _. rewrite append_nil. destruct (params_len s); reflexivity.
  - intros H. simpl in H. apply andb_prop in H as [Hc Ha].
    rewrite append_cons. cbn [params_len]. rewrite Hc, (IH Ha).
    destruct (params_len s); reflexivity.
Qed.

Lemma strip_skip_length a s :
  strip_skip (String.length a) (a +:+ s) = strip_skip 0 s.
Proof.
  induction a as [|c a IH]; [reflexivity|].
  rewrite append_cons. cbn [String.length strip_skip]. exact IH.
Qed.

Lemma sgr_append a s :
  sgr a +:+ s = String ESC_byte (String "[" (a +:+ String "m" s)).
Proof.
  unfold sgr. rewrite !append_cons, append_nil, append_assoc. reflexivity.
Qed.

Lemma length_sgr a : String.length (sgr a) = S (S (String.length a + 1)).
Proof.
  unfold sgr. rewrite append_cons, append_nil. cbn [String.length].
  rewrite length_append. reflexivity.
Qed.

Lemma sequence_len_sgr a s :
  all_params a = true ->
  sequence_len (sgr a +:+ s) = Some (String.length (sgr a)).
Proof.
  intros Ha. rewrite sgr_append, length_sgr.
  change (sequence_len (String ESC_byte (String "[" (a +:+ String "m" s))))
    with (option_map (fun n => S (S n)) (params_len (a +:+ String "m" s))).
  rewrite (params_len_all_params _ _ Ha).
  change (params_len (String "m" s)) with (Some 1%nat). reflexivity.
Qed.

Lemma strip_skip_0 c s :
  strip_skip 0 (String c s)
  = match sequence_len (String c s) with
    | Some (S k) => strip_skip k s
    | _ => String c (strip_skip 0 s)
    end.
Proof. reflexivity. Qed.

(** A sequence at the front of a string is removed whole. *)
Lemma strip_sgr a s : all_params a = true -> strip (sgr a +:+ s) = strip s.
Proof.
  intros Ha. unfold strip.
  pose proof (sequence_len_sgr a s Ha) as E.
  rewrite sgr_append in *. rewrite strip_skip_0, E, length_sgr.
  replace (String "[" (a +:+ String "m" s)) with (("[" +:+ a +:+ "m") +:+ s)
    by (rewrite !append_cons, append_nil, append_assoc; reflexivity).
  replace (S (String.length a + 1)) with (String.length ("[" +:+ a +:+ "m")).
  - apply strip_skip_length.
  - rewrite append_cons, append_nil. cbn [String.length].
    rewrite length_append. reflexivity.
Qed.

(** Text without a sequence of its own, followed by a sequence: only the
    sequence goes. *)
Lemma strip_text_then_sgr text a :
  strip text = text -> all_params a = true -> strip (text +:+ sgr a) = text.
Proof.
  intros Ht Ha. unfold strip in *. unfold sgr at 1.
  rewrite strip_skip_before_ESC by lia. rewrite Ht.
  fold (sgr a). pose proof (strip_sgr a "" Ha) as E. unfold strip in E.
  replace (sgr a +:+ "") with (sgr a) in E.
  - rewrite E. simpl. clear. induction text as [|c t IH]; [reflexivity|].
    rewrite append_cons, IH. reflexivity.
  - clear. induction (sgr a) as [|c t IH]; [reflexivity|].
    rewrite append_cons, <- IH. reflexivity.
Qed.

Lemma all_params_app a b :
  all_params (a +:+ b) = all_params a && all_params b.
Proof.
  unfold all_params. induction a as [|c a IH]; [reflexivity|].
  rewrite append_cons. simpl. rewrite IH, andb_assoc. reflexivity.
Qed.

Lemma to_string_params_upto :
  forallb (fun k => all_params (to_string (Z.of_nat k))) (seq 0 256) = true.
Proof. vm_compute. reflexivity. Qed.

Lemma to_string_params n : uint8 n -> all_params (to_string n) = true.
Proof.
  intros [Hlo Hhi].
  assert (Hin : In (Z.to_nat n) (seq 0 256)) by (apply in_seq; lia).
  pose proof (proj1 (forallb_forall _ _) to_string_params_upto _ Hin) as H.
  cbv beta in H. rewrite Z2Nat.id in H by exact Hlo. exact H.
Qed.

Lemma lookup_color_is_sequence c t : is_sequence (lookup_color c t).
Proof.
  destruct t, c;
    match goal with
    | |- is_sequence ?p =>
        let v := eval vm_compute in p in
        match v with
        | String _ (String _ ?rest) =>
            exists (substring 0 (String.length rest - 1) rest)
        end
    end; split; vm_compute; reflexivity.
Qed.

Lemma lookup_style_is_sequence s : is_sequence (lookup_style s).
Proof.
  destruct s;
    [exists "1" | exists "3" | exists "4" | exists "7"]; split; vm_compute; reflexivity.
Qed.

Lemma rgb_is_sequence t r g b :
  uint8 r -> uint8 g -> uint8 b -> is_sequence (rgb t r g b).
Proof.
  intros Hr Hg Hb.
  exists ((if position_of t =? 1 then "38;2;" else "48;2;")
          +:+ to_string r +:+ ";" +:+ to_string g +:+ ";" +:+ to_string b).
  split.
  - rewrite !all_params_app, !to_string_params by assumption.
    destruct t; reflexivity.
  - unfold rgb, getColor, sgr, ESC.
    destruct t; simpl position_of; cbn [Z.eqb TEXT BACKGROUND Pos.eqb];
      rewrite !append_cons, !append_nil, ?append_assoc; rewrite ?append_cons;
      rewrite ?append_assoc; reflexivity.
Qed.

Lemma resolve_is_sequence q : request_ok q -> is_sequence (resolve q).
Proof.
  destruct q as [c t | s | t r g b]; simpl.
  - intros _. apply lookup_color_is_sequence.
  - intros _. apply lookup_style_is_sequence.
  - intros (Hr & Hg & Hb). apply rgb_is_sequence; assumption.
Qed.

Lemma strip_wrapped p text :
  is_sequence p -> strip text = text ->
  strip (p +:+ text +:+ RESET_STYLE) = text.
Proof.
  intros (a & Ha & ->) Ht. rewrite (strip_sgr _ _ Ha).
  apply (strip_text_then_sgr text "0" Ht). reflexivity.
Qed.

(** Where no sequence starts there is nothing to remove. *)
Lemma strip_sequence_free text : sequence_free text = true -> strip text = text.
Proof.
  unfold strip. induction text as [|c t IH]; [reflexivity|].
  cbn [sequence_free]. rewrite strip_skip_0.
  destruct (sequence_len (String c t)); [discriminate|].
  intros H. rewrite (IH H). reflexivity.
Qed.

Lemma no_ESC_sequence_free text : no_ESC text = true -> sequence_free text = true.
Proof.
  unfold no_ESC. induction text as [|c t IH]; [reflexivity|].
  simpl forallb. intros H. apply andb_prop in H as [Hc Ht].
  cbn [sequence_free].
  assert (E : sequence_len (String c t) = None).
  { destruct t as [|d t]; [reflexivity|]. simpl.
    apply negb_true_iff in Hc. rewrite Hc. reflexivity. }
  rewrite E. exact (IH Ht).
Qed.

(** C7 (amended): for every request and every text in which no escape
    sequence starts (no substring ESC, '[', digits and ';', 'm'), the empty
    text and texts with bare ESC bytes included, removing the escape
    sequences from the string form gives back the text. *)
Theorem strip_wrap_roundtrip :
  forall (q : request) (text : string) (w : world),
    request_ok q -> capable w = true -> sequence_free text = true ->
    exists (out : string) (w' : world),
      wrap q text w = Returned out w' /\ strip out = text.
Proof.
  intros q text w Hq Hc Ht.
  destruct (wrap_returns q text w Hc) as (w' & Hw & _).
  exists (resolve q +:+ text +:+ RESET_STYLE), w'. split; [exact Hw|].
  apply strip_wrapped;
    [apply resolve_is_sequence, Hq | apply strip_sequence_free, Ht].
Qed.

Lemma strip_wrap_roundtrip_witness :
  request_ok (Rgb Background 12 0 255) /\
  capable (initial Posix ∅) = true /\
  sequence_free (String ESC_byte "[x" +:+ ESC) = true /\
  exists (out : string) (w' : world),
    wrap (Rgb Background 12 0 255) (String ESC_byte "[x" +:+ ESC) (initial Posix ∅)
    = Returned out w' /\
    strip out = String ESC_byte "[x" +:+ ESC.
Proof.
  assert (Hq : request_ok (Rgb Background 12 0 255))
    by (simpl; unfold uint8; lia).
  split; [exact Hq|]. split; [reflexivity|]. split; [reflexivity|].
  exact (strip_wrap_roundtrip (Rgb Background 12 0 255)
           (String ESC_byte "[x" +:+ ESC) (initial Posix ∅) Hq eq_refl eq_refl).
Defined.

(** C7 as stated fails on a text that holds an escape sequence:
    [red("ESC[1mX")] is ESC[31m ESC[1m X ESC[0m, and removing the escape
    sequences leaves "X", not the text. *)
Lemma strip_roundtrip_counterexample :
  exists (out : string) (w' : world),
    wrap (Named Red Foreground) (String ESC_byte "[1mX") (initial Posix ∅)
    = Returned out w' /\
    out = String ESC_byte "[31m" +:+ String ESC_byte "[1mX" +:+ String ESC_byte "[0m" /\
    strip out = "X" /\
    strip out <> String ESC_byte "[1mX".
Proof.
  eexists. eexists. split; [reflexivity|]. split; [reflexivity|].
  split; [reflexivity | discriminate].
Qed.

(** * Further properties of the facade *)

(** ** Shorthands and the operations with a position *)

Lemma checkPosition_TEXT w : checkPosition TEXT w = Returned tt w.
Proof. reflexivity. Qed.

Lemma checkPosition_BACKGROUND w : checkPosition BACKGROUND w = Returned tt w.
Proof. reflexivity. Qed.

(** X1: in every world, a named colour's [c(text)] and [c(os)] do what
    [c<TEXT>(text)] and [c<TEXT>(os)] do, and [on_c(text)] and [on_c(os)]
    what [c<BACKGROUND>(text)] and [c<BACKGROUND>(os)] do; likewise
    [color<r,g,b>(text)] is [color<TEXT,r,g,b>(text)] and
    [on_color<r,g,b>(os)] is [color<BACKGROUND,r,g,b>(os)]. *)
Theorem shorthand_is_position_form :
  forall (c : NamedColor) (r g b : Z) (text : string) (os : stream) (w : world),
    named_str c text w = named_pos_str c TEXT text w /\
    named_os c os w = named_pos_os c TEXT os w /\
    on_named_str c text w = named_pos_str c BACKGROUND text w /\
    on_named_os c os w = named_pos_os c BACKGROUND os w /\
    color_str r g b text w = color_pos_str TEXT r g b text w /\
    on_color_os r g b os w = color_pos_os BACKGROUND r g b os w.
Proof.
  intros c r g b text os w.
  repeat (split; [reflexivity|]). reflexivity.
Qed.

(** ** With the flag set *)

Lemma vt_gate_set w : handleVTSequences w = true -> vt_gate w = Returned tt w.
Proof. intros H. unfold vt_gate. rewrite H. reflexivity. Qed.

Lemma gate_of_set c w : handleVTSequences w = true -> gate_of c w = Returned tt w.
Proof. intros H. destruct c; simpl; first [apply vt_gate_set, H | reflexivity]. Qed.

Lemma enabled_set w : handleVTSequences w = true -> enabled w = w.
Proof. intros H. unfold enabled. rewrite H. reflexivity. Qed.

Lemma capable_set w : handleVTSequences w = true -> capable w = true.
Proof. intros H. unfold capable. rewrite H. reflexivity. Qed.


Lemma call_str_capable e text w :
  capable w = true -> position_ok e = true ->
  exists w', call_str e text w
             = Returned (str_prefix e +:+ text +:+ RESET_STYLE) w'
             /\ streams w' = streams w
             /\ (handleVTSequences w = true -> w' = w).
Proof.
  intros Hc Hp.
  destruct e as [c position | c | c | position r g b | r g b | r g b | s |];
    simpl call_str; simpl in Hp.
  - destruct (position_ok_target _ Hp) as [t ->].
    unfold named_pos_str. step_gate Hc. step_check.
    exists w0. split; [reflexivity|]. split; [exact Hs|].
    intros Hset. rewrite (gate_of_set c w Hset) in Hg. congruence.
  - unfold named_str. step_gate Hc. exists w0. split; [reflexivity|].
    split; [exact Hs|].
    intros Hset. rewrite (gate_of_set c w Hset) in Hg. congruence.
  - unfold on_named_str. step_gate Hc. exists w0. split; [reflexivity|].
    split; [exact Hs|].
    intros Hset. rewrite (gate_of_set c w Hset) in Hg. congruence.
  - destruct (position_ok_target _ Hp) as [t ->].
    unfold color_pos_str. step_check. step_gate Hc.
    exists (enabled w). split; [destruct t; reflexivity|].
    split; [apply streams_enabled | apply enabled_set].
  - unfold color_str. step_gate Hc. exists (enabled w).
    split; [reflexivity|]. split; [apply streams_enabled | apply enabled_set].
  - unfold on_color_str. step_gate Hc. exists (enabled w).
    split; [reflexivity|]. split; [apply streams_enabled | apply enabled_set].
  - exists (enabled w). split; [apply style_str_returns, Hc|].
    split; [apply streams_enabled | apply enabled_set].
  - exists (enabled w). split; [apply reset_str_returns, Hc|].
    split; [apply streams_enabled | apply enabled_set].
Qed.

(** X2: once the flag is set, every string operation with a valid position
    returns and leaves the whole process state as it found it; the string it
    returns is the one it returns in any other world in which the capability
    step passes, where it writes to no stream either. *)
Theorem string_forms_pure_once_enabled :
  forall (e : str_entry) (text : string) (w : world),
    handleVTSequences w = true -> position_ok e = true ->
    exists v : string,
      call_str e text w = Returned v w /\
      forall w2 : world,
        capable w2 = true ->
        exists w2', call_str e text w2 = Returned v w2' /\ streams w2' = streams w2.
Proof.
  intros e text w Hset Hp.
  exists (str_prefix e +:+ text +:+ RESET_STYLE). split.
  - destruct (call_str_capable e text w (capable_set w Hset) Hp)
      as (w' & Hr & _ & Hw). rewrite (Hw Hset) in Hr. exact Hr.
  - intros w2 Hc2.
    destruct (call_str_capable e text w2 Hc2 Hp) as (w2' & Hr & Hs & _).
    exists w2'. split; [exact Hr | exact Hs].
Qed.

Lemma string_forms_pure_once_enabled_witness :
  handleVTSequences (enabled (initial Posix ∅)) = true /\
  position_ok (ColorPosStr BACKGROUND 1 2 3) = true /\
  exists v : string,
    call_str (ColorPosStr BACKGROUND 1 2 3) "x" (enabled (initial Posix ∅))
    = Returned v (enabled (initial Posix ∅)).
Proof.
  split; [reflexivity|]. split; [reflexivity|].
  destruct (string_forms_pure_once_enabled (ColorPosStr BACKGROUND 1 2 3) "x"
              (enabled (initial Posix ∅)) eq_refl eq_refl) as (v & Hv & _).
  exists v. exact Hv.
Defined.

(** ** The colours without the capability statement *)

Lemma final_bind_ret {A B} (m : M A) (f : A -> B) w :
  final (bind m (fun a => ret (f a)) w) = final (m w).
Proof. unfold bind. destruct (m w); reflexivity. Qed.

Lemma keeps_capability_ret {A} (a : A) : keeps_capability (ret a).
Proof. intros w. repeat split. Qed.

Lemma keeps_capability_exit {A} st : keeps_capability (@exit A st).
Proof. intros w. repeat split. Qed.

Lemma keeps_capability_put os s : keeps_capability (put os s).
Proof. intros w. repeat split. Qed.

Lemma keeps_capability_bind {A B} (m : M A) (k : A -> M B) :
  keeps_capability m -> (forall a, keeps_capability (k a)) ->
  keeps_capability (bind m k).
Proof.
  intros Hm Hk w. unfold bind. specialize (Hm w).
  destruct (m w) as [a w1|st w1]; simpl in *; [|exact Hm].
  destruct Hm as (H1 & H2 & H3), (Hk a w1) as (K1 & K2 & K3).
  repeat split; congruence.
Qed.

Lemma keeps_capability_checkPosition position :
  keeps_capability (checkPosition position).
Proof.
  unfold checkPosition.
  destruct (negb (position =? 1) && negb (position =? 0)).
  - apply keeps_capability_bind;
      [apply keeps_capability_put | intros _; apply keeps_capability_exit].
  - apply keeps_capability_ret.
Qed.

Lemma keeps_capability_gate_of c : gated c = false -> keeps_capability (gate_of c).
Proof. destruct c; simpl; [discriminate | intros _; apply keeps_capability_ret ..]. Qed.

Create HintDb capability.

#[local] Hint Resolve keeps_capability_ret keeps_capability_exit keeps_capability_put
  keeps_capability_bind keeps_capability_checkPosition keeps_capability_gate_of
  : capability.

(** X3: the six functions of a colour other than grey never call the
    enabler and never change the flag, whatever the world, the position and
    the outcome: after [c<p>(text)], [c<p>(os)], [c(text)], [c(os)],
    [on_c(text)] and [on_c(os)] the flag and the number of enabler calls are
    what they were. *)
Theorem other_colours_keep_capability :
  forall (c : NamedColor) (position : Z) (text : string) (os : stream) (w : world),
    gated c = false ->
    same_capability w (final (named_pos_str c position text w)) /\
    same_capability w (final (named_pos_os c position os w)) /\
    same_capability w (final (named_str c text w)) /\
    same_capability w (final (named_os c os w)) /\
    same_capability w (final (on_named_str c text w)) /\
    same_capability w (final (on_named_os c os w)).
Proof.
  intros c position text os w Hc.
  assert (Hg := keeps_capability_gate_of c Hc).
  assert (K : forall A (m : M A),
             keeps_capability m -> same_capability w (final (m w)))
    by (intros A m H; exact (H w)).
  split; [|split; [|split; [|split; [|split]]]]; apply K;
    unfold named_pos_str, named_pos_os, named_str, named_os, on_named_str,
      on_named_os; auto 10 with capability.
Qed.

Lemma other_colours_keep_capability_witness :
  gated BrightBlue = false /\
  enable_calls (final (named_pos_os BrightBlue 7 2%nat (initial Posix ∅))) = 0%nat /\
  handleVTSequences (final (on_named_str BrightBlue "x" (initial Posix ∅))) = false.
Proof.
  split; [reflexivity|].
  destruct (other_colours_keep_capability BrightBlue 7 "x" 2%nat (initial Posix ∅)
              eq_refl) as (_ & (_ & H2 & _) & _ & _ & (H5 & _) & _).
  split; [exact H2 | exact H5].
Defined.

(** ** Calls that end the process *)

Lemma quiet_ret {A} (a : A) : quiet (ret a).
Proof. intros w. reflexivity. Qed.

Lemma quiet_checkPosition position : quiet (checkPosition position).
Proof.
  intros w. unfold checkPosition.
  destruct (negb (position =? 1) && negb (position =? 0)); simpl; [|reflexivity].
  split; [reflexivity|]. intros o Ho. apply lookup_insert_ne. congruence.
Qed.

Lemma quiet_vt_gate : quiet vt_gate.
Proof.
  intros w. unfold vt_gate, enableVTSequences.
  destruct (handleVTSequences w); simpl; [reflexivity|].
  destruct (host w) as [|[[] [] []]]; simpl; try reflexivity;
    (split; [reflexivity|]); intros o Ho;
    rewrite !lookup_insert_ne by congruence; reflexivity.
Qed.

Lemma quiet_gate_of c : quiet (gate_of c).
Proof. destruct c; simpl; first [apply quiet_vt_gate | apply quiet_ret]. Qed.

Lemma exits_quietly_bind {A B} (m : M A) (k : A -> M B) :
  quiet m -> (forall a, exits_quietly (k a)) -> exits_quietly (bind m k).
Proof.
  intros Hm Hk w st w'. unfold bind. specialize (Hm w).
  destruct (m w) as [a w1|st1 w1].
  - intros H. destruct (Hk a w1 st w' H) as [Hst Ho]. split; [exact Hst|].
    intros o Hne. rewrite (Ho o Hne), Hm. reflexivity.
  - intros [= <- <-]. exact Hm.
Qed.

Lemma exits_quietly_ret {A} (a : A) : exits_quietly (ret a).
Proof. intros w st w'. discriminate. Qed.

Lemma exits_quietly_put_ret {A} os s (a : A) : exits_quietly (put os s ;; ret a).
Proof. intros w st w'. discriminate. Qed.

Lemma exits_quietly_put os s : exits_quietly (put os s).
Proof. intros w st w'. discriminate. Qed.

Create HintDb quiet.

#[local] Hint Resolve quiet_ret quiet_checkPosition quiet_vt_gate quiet_gate_of
  exits_quietly_bind exits_quietly_ret exits_quietly_put_ret exits_quietly_put
  : quiet.

Lemma exits_quietly_call_str e text : exits_quietly (call_str e text).
Proof.
  destruct e as [c p | c | c | p r g b | r g b | r g b | [] |]; simpl;
    unfold named_pos_str, named_str, on_named_str, color_pos_str, color_str,
      on_color_str, bold_str, italic_str, underline_str, reverse_str, reset_str;
    auto 10 with quiet.
Qed.

Lemma exits_quietly_call_os e os : exits_quietly (call_os e os).
Proof.
  destruct e as [c p | c | c | p r g b | r g b | r g b | [] |]; simpl;
    unfold named_pos_os, named_os, on_named_os, color_pos_os, color_os,
      on_color_os, bold_os, italic_os, underline_os, reverse_os, reset_os;
    auto 10 with quiet.
Qed.

Lemma exits_quietly_invoke c : exits_quietly (invoke c).
Proof.
  intros w st w'. destruct c as [e text|e os]; simpl; unfold bind.
  - pose proof (exits_quietly_call_str e text w) as H.
    destruct (call_str e text w) as [v w1|st1 w1]; [discriminate|].
    intros [= <- <-]. apply H. reflexivity.
  - pose proof (exits_quietly_call_os e os w) as H.
    destruct (call_os e os w) as [v w1|st1 w1]; [discriminate|].
    intros [= <- <-]. apply H. reflexivity.
Qed.

(** X4: a call that ends the process does so with [EXIT_FAILURE], before
    any escape sequence is written: every stream other than [std::cerr]
    holds what it held before the call. *)
Theorem exit_leaves_streams :
  forall (c : call) (w : world) (st : Z) (w' : world),
    invoke c w = Exited st w' ->
    st = EXIT_FAILURE /\
    forall o : stream, o <> cerr -> written o w' = written o w.
Proof.
  intros c w st w' H. destruct (exits_quietly_invoke c w st w' H) as [Hst Ho].
  split; [exact Hst|]. intros o Hne. unfold written. rewrite (Ho o Hne). reflexivity.
Qed.

Lemma exit_leaves_streams_witness :
  exists w',
    invoke (CallOs (ColorPosOs 2 10 20 30) 1%nat) (initial Posix {[ 1%nat := "abc" ]})
    = Exited EXIT_FAILURE w' /\
    written 1%nat w' = "abc".
Proof.
  eexists. split; [reflexivity|].
  destruct (exit_leaves_streams (CallOs (ColorPosOs 2 10 20 30) 1%nat)
              (initial Posix {[ 1%nat := "abc" ]}) _ _ eq_refl) as [_ H].
  rewrite (H 1%nat) by discriminate. reflexivity.
Defined.

Lemma fatal_vt_gate : fatal vt_gate.
Proof.
  intros w Hc. destruct (vt_gate_fatal w Hc) as (w' & msg & H & Hf & _).
  exists w'. split; [exact H | exact Hf].
Qed.

Lemma fatal_bind {A B} (m : M A) (k : A -> M B) : fatal m -> fatal (bind m k).
Proof.
  intros Hm w Hc. destruct (Hm w Hc) as (w' & H & Hf).
  exists w'. split; [apply bind_Exited, H | exact Hf].
Qed.

Lemma capable_false_flag w : capable w = false -> handleVTSequences w = false.
Proof. unfold capable. destruct (handleVTSequences w); [discriminate | reflexivity]. Qed.

Lemma fatal_after_checkPosition {B} position (k : M B) :
  fatal k -> fatal (checkPosition position ;; k).
Proof.
  intros Hk w Hc. unfold bind, checkPosition.
  destruct (negb (position =? 1) && negb (position =? 0)); simpl.
  - eexists. split; [reflexivity|]. simpl. apply capable_false_flag, Hc.
  - apply Hk, Hc.
Qed.

Lemma fatal_gate_of c : gated c = true -> fatal (gate_of c).
Proof. destruct c; simpl; [intros _; apply fatal_vt_gate | discriminate ..]. Qed.

Lemma fatal_call_str e text : str_uses_gate e = true -> fatal (call_str e text).
Proof.
  destruct e as [c p | c | c | p r g b | r g b | r g b | [] |]; simpl; intros Hg;
    unfold named_pos_str, named_str, on_named_str, color_pos_str, color_str,
      on_color_str, bold_str, italic_str, underline_str, reverse_str, reset_str;
    first [ apply fatal_after_checkPosition, fatal_bind, fatal_vt_gate
          | apply fatal_bind, fatal_gate_of, Hg
          | apply fatal_bind, fatal_vt_gate ].
Qed.

Lemma fatal_call_os e os : os_uses_gate e = true -> fatal (call_os e os).
Proof.
  destruct e as [c p | c | c | p r g b | r g b | r g b | [] |]; simpl; intros Hg;
    unfold named_pos_os, named_os, on_named_os, color_pos_os, color_os,
      on_color_os, bold_os, italic_os, underline_os, reverse_os, reset_os;
    first [ apply fatal_after_checkPosition, fatal_bind, fatal_vt_gate
          | apply fatal_bind, fatal_gate_of, Hg
          | apply fatal_bind, fatal_vt_gate ].
Qed.

(** X5: on a Windows console that refuses one of the three API calls, with
    the flag unset, every operation of grey, of the RGB colours, of the
    styles and of reset ends the process with [EXIT_FAILURE] and leaves the
    flag unset; it returns no string and writes to no stream but
    [std::cerr]. *)
Theorem gated_call_fatal_without_capability :
  forall (c : call) (w : world),
    uses_gate c = true -> capable w = false ->
    exists w',
      invoke c w = Exited EXIT_FAILURE w' /\
      handleVTSequences w' = false /\
      forall o : stream, o <> cerr -> written o w' = written o w.
Proof.
  intros c w Hg Hc.
  assert (exists w', invoke c w = Exited EXIT_FAILURE w'
                     /\ handleVTSequences w' = false) as (w' & H & Hf).
  { destruct c as [e text|e os]; simpl in *.
    - apply fatal_bind; [apply fatal_call_str, Hg | exact Hc].
    - apply fatal_bind; [apply fatal_call_os, Hg | exact Hc]. }
  exists w'. split; [exact H|]. split; [exact Hf|].
  intros o Hne. destruct (exits_quietly_invoke c w _ _ H) as [_ Ho].
  unfold written. rewrite (Ho o Hne). reflexivity.
Qed.

Lemma gated_call_fatal_without_capability_witness :
  uses_gate (CallOs (StyleOs Bold) 1%nat) = true /\
  capable (initial (Win32 (mkConsole true false true)) ∅) = false /\
  exists w',
    invoke (CallOs (StyleOs Bold) 1%nat) (initial (Win32 (mkConsole true false true)) ∅)
    = Exited EXIT_FAILURE w' /\
    handleVTSequences w' = false.
Proof.
  split; [reflexivity|]. split; [reflexivity|].
  destruct (gated_call_fatal_without_capability (CallOs (StyleOs Bold) 1%nat)
              (initial (Win32 (mkConsole true false true)) ∅) eq_refl eq_refl)
    as (w' & H & Hf & _).
  exists w'. split; [exact H | exact Hf].
Defined.

(** ** A position that is neither TEXT nor BACKGROUND *)


Lemma gate_of_gate_world c t w :
  capable w = true -> gate_of c w = Returned tt (gate_world (Named c t) w).
Proof.
  intros Hc. destruct c; simpl; first [apply vt_gate_capable, Hc | reflexivity].
Qed.



(** ** Chaining stream forms *)

Lemma apply_exact q os w :
  capable w = true ->
  apply q os w
  = Returned os (set_streams (appended os (resolve q) w) (gate_world q w)).
Proof.
  intros Hc. destruct q as [c t | s | t r g b]; simpl apply; simpl resolve.
  - unfold named_pos_os.
    rewrite (bind_Returned _ _ _ _ _ (gate_of_gate_world c t w Hc)).
    step_check. simpl gate_world.
    assert (Hs : streams (if gated c then enabled w else w) = streams w)
      by (destruct (gated c); [apply streams_enabled | reflexivity]).
    rewrite (put_ret _ _ _ _ Hs). destruct t; reflexivity.
  - rewrite lookup_style_literal. apply style_os_returns, Hc.
  - apply color_pos_os_returns, Hc.
Qed.





(** ** Requests and their sequences *)

Lemma to_string_digits_upto :
  forallb (fun k => all_digits (to_string (Z.of_nat k))
                    && (1 <=? String.length (to_string (Z.of_nat k)))%nat
                    && (String.length (to_string (Z.of_nat k)) <=? 3)%nat)
          (seq 0 256) = true.
Proof. vm_compute. reflexivity. Qed.

Lemma to_string_digits n :
  uint8 n ->
  all_digits (to_string n) = true /\
  (1 <= String.length (to_string n) <= 3)%nat.
Proof.
  intros [Hlo Hhi].
  assert (Hin : In (Z.to_nat n) (seq 0 256)) by (apply in_seq; lia).
  pose proof (proj1 (forallb_forall _ _) to_string_digits_upto _ Hin) as H.
  cbv beta in H. rewrite Z2Nat.id in H by exact Hlo.
  apply andb_prop in H as [H H3]. apply andb_prop in H as [Hd H1].
  apply Nat.leb_le in H1, H3. auto.
Qed.

Lemma to_string_inj n n' :
  uint8 n -> uint8 n' -> to_string n = to_string n' -> n = n'.
Proof.
  intros Hn Hn' E.
  pose proof (to_string_decimal n Hn) as D.
  pose proof (to_string_decimal n' Hn') as D'.
  unfold decimal_of in D, D'.
  apply andb_prop in D as [_ D]. apply andb_prop in D' as [_ D'].
  apply bool_decide_eq_true in D, D'. rewrite E in D. congruence.
Qed.

(** Two numerals each followed by a character that is no digit. *)
Lemma digits_then_other a : forall a' c c' x y,
  all_digits a = true -> all_digits a' = true ->
  is_digit c = false -> is_digit c' = false ->
  a +:+ String c x = a' +:+ String c' y ->
  a = a' /\ x = y.
Proof.
  unfold all_digits.
  induction a as [|d a IH]; intros [|d' a'] c c' x y Ha Ha' Hc Hc';
    rewrite ?append_nil, ?append_cons; simpl in Ha, Ha'.
  - intros [= _ ->]. split; reflexivity.
  - intros [= -> _]. apply andb_prop in Ha' as [Hd _]. congruence.
  - intros [= -> _]. apply andb_prop in Ha as [Hd _]. congruence.
  - intros [= -> E]. apply andb_prop in Ha as [_ Ha].
    apply andb_prop in Ha' as [_ Ha'].
    destruct (IH a' c c' x y Ha Ha' Hc Hc' E) as [-> ->]. split; reflexivity.
Qed.

Lemma rgb_shape t r g b :
  rgb t r g b
  = String ESC_byte
      (String "[" (String (family_digit t)
         (String "8" (String ";" (String "2" (String ";"
            (to_string r +:+ String ";"
               (to_string g +:+ String ";" (to_string b +:+ String "m" ""))))))))).
Proof. destruct t; reflexivity. Qed.

Lemma rgb_inj t r g b t' r' g' b' :
  uint8 r -> uint8 g -> uint8 b -> uint8 r' -> uint8 g' -> uint8 b' ->
  rgb t r g b = rgb t' r' g' b' ->
  t = t' /\ r = r' /\ g = g' /\ b = b'.
Proof.
  intros Hr Hg Hb Hr' Hg' Hb'. rewrite !rgb_shape. intros H.
  injection H as Ht H.
  assert (t = t') as <- by (destruct t, t'; first [reflexivity | discriminate Ht]).
  destruct (digits_then_other (to_string r) (to_string r') ";"%char ";"%char _ _
              (proj1 (to_string_digits r Hr)) (proj1 (to_string_digits r' Hr'))
              eq_refl eq_refl H) as [Er H1].
  destruct (digits_then_other (to_string g) (to_string g') ";"%char ";"%char _ _
              (proj1 (to_string_digits g Hg)) (proj1 (to_string_digits g' Hg'))
              eq_refl eq_refl H1) as [Eg H2].
  destruct (digits_then_other (to_string b) (to_string b') "m"%char "m"%char _ _
              (proj1 (to_string_digits b Hb)) (proj1 (to_string_digits b' Hb'))
              eq_refl eq_refl H2) as [Eb _].
  repeat split; apply to_string_inj; assumption.
Qed.

Lemma table_sequences_distinct_true : table_sequences_distinct = true.
Proof. vm_compute. reflexivity. Qed.

Lemma table_sequences_inj n v n' v' :
  In (n, v) table_sequences -> In (n', v') table_sequences ->
  v = v' -> n = n' /\ String.get 3 v <> Some "8"%char.
Proof.
  intros Hin Hin' E.
  pose proof table_sequences_distinct_true as H. unfold table_sequences_distinct in H.
  pose proof (proj1 (forallb_forall _ _) H _ Hin) as H1. cbv beta in H1.
  apply andb_prop in H1 as [H8 H1].
  pose proof (proj1 (forallb_forall _ _) H1 _ Hin') as H2. cbv beta in H2.
  cbn [fst snd] in H2, H8.
  subst v'. rewrite String.eqb_refl in H2. cbn [implb] in H2.
  apply Nat.eqb_eq in H2. split; [exact H2|].
  apply negb_true_iff, bool_decide_eq_false in H8. exact H8.
Qed.

Lemma In_table_color c t :
  In ((2 * color_code c + target_code t)%nat, lookup_color c t) table_sequences.
Proof.
  unfold table_sequences. apply in_or_app. left.
  apply in_flat_map. exists c. split.
  - destruct c; simpl; tauto.
  - apply (in_map (fun t0 => ((2 * color_code c + target_code t0)%nat,
                              lookup_color c t0))).
    destruct t; simpl; tauto.
Qed.

Lemma In_table_style s :
  In ((32 + style_code s)%nat, lookup_style s) table_sequences.
Proof.
  unfold table_sequences. apply in_or_app. right.
  change (In ((fun s => ((32 + style_code s)%nat, lookup_style s)) s)
             (map (fun s => ((32 + style_code s)%nat, lookup_style s)) all_styles)).
  apply in_map. destruct s; simpl; tauto.
Qed.

Lemma rgb_get_3 t r g b : String.get 3 (rgb t r g b) = Some "8"%char.
Proof. rewrite rgb_shape. reflexivity. Qed.

Lemma rgb_not_named t r g b c t' : rgb t r g b <> lookup_color c t'.
Proof.
  intros H.
  destruct (table_sequences_inj _ _ _ _ (In_table_color c t') (In_table_color c t')
              eq_refl) as [_ H8].
  rewrite <- H, rgb_get_3 in H8. apply H8. reflexivity.
Qed.

Lemma rgb_not_style t r g b s : rgb t r g b <> lookup_style s.
Proof.
  intros H.
  destruct (table_sequences_inj _ _ _ _ (In_table_style s) (In_table_style s)
              eq_refl) as [_ H8].
  rewrite <- H, rgb_get_3 in H8. apply H8. reflexivity.
Qed.

Lemma lookup_color_inj c t c' t' :
  lookup_color c t = lookup_color c' t' -> c = c' /\ t = t'.
Proof.
  intros H.
  destruct (table_sequences_inj _ _ _ _ (In_table_color c t) (In_table_color c' t') H)
    as [Hn _].
  destruct t, t'; simpl in Hn;
    try (exfalso; lia);
    (split; [|reflexivity]);
    destruct c, c'; simpl in Hn; first [reflexivity | exfalso; lia].
Qed.

Lemma lookup_style_inj s s' : lookup_style s = lookup_style s' -> s = s'.
Proof.
  intros H.
  destruct (table_sequences_inj _ _ _ _ (In_table_style s) (In_table_style s') H)
    as [Hn _].
  destruct s, s'; simpl in Hn; first [reflexivity | exfalso; lia].
Qed.

Lemma lookup_color_not_style c t s : lookup_color c t <> lookup_style s.
Proof.
  intros H.
  destruct (table_sequences_inj _ _ _ _ (In_table_color c t) (In_table_style s) H)
    as [Hn _].
  destruct c, t, s; simpl in Hn; lia.
Qed.

(** X9: no two requests share an escape sequence: two requests (RGB
    components in 0..255) that resolve to the same sequence are the same
    named colour and target, the same style, or the same target and
    components. *)
Theorem resolve_injective :
  forall q q' : request,
    request_ok q -> request_ok q' ->
    resolve q = resolve q' -> q = q'.
Proof.
  intros [c t | s | t r g b] [c' t' | s' | t' r' g' b'] Hq Hq' H; simpl in *.
  - destruct (lookup_color_inj _ _ _ _ H) as [-> ->]. reflexivity.
  - destruct (lookup_color_not_style _ _ _ H).
  - symmetry in H. destruct (rgb_not_named _ _ _ _ _ _ H).
  - symmetry in H. destruct (lookup_color_not_style _ _ _ H).
  - rewrite (lookup_style_inj _ _ H). reflexivity.
  - symmetry in H. destruct (rgb_not_style _ _ _ _ _ H).
  - destruct (rgb_not_named _ _ _ _ _ _ H).
  - destruct (rgb_not_style _ _ _ _ _ H).
  - destruct Hq as (Hr & Hg & Hb), Hq' as (Hr' & Hg' & Hb').
    destruct (rgb_inj _ _ _ _ _ _ _ _ Hr Hg Hb Hr' Hg' Hb' H) as (-> & -> & -> & ->).
    reflexivity.
Qed.

Lemma resolve_injective_witness :
  request_ok (Rgb Foreground 1 23 4) /\ request_ok (Rgb Foreground 12 3 4) /\
  resolve (Rgb Foreground 1 23 4) <> resolve (Rgb Foreground 12 3 4).
Proof.
  assert (H1 : request_ok (Rgb Foreground 1 23 4)) by (simpl; unfold uint8; lia).
  assert (H2 : request_ok (Rgb Foreground 12 3 4)) by (simpl; unfold uint8; lia).
  split; [exact H1|]. split; [exact H2|].
  intros E. pose proof (resolve_injective _ _ H1 H2 E) as Hq. discriminate Hq.
Defined.

Lemma resolve_length q :
  request_ok q -> (4 <= String.length (resolve q) <= 19)%nat.
Proof.
  destruct q as [c t | s | t r g b]; simpl.
  - intros _. destruct c, t; vm_compute; split; repeat constructor.
  - intros _. destruct s; vm_compute; split; repeat constructor.
  - intros (Hr & Hg & Hb). rewrite rgb_shape. cbn [String.length].
    rewrite !length_append. cbn [String.length].
    rewrite !length_append. cbn [String.length].
    rewrite !length_append. cbn [String.length].
    destruct (to_string_digits r Hr) as [_ Lr].
    destruct (to_string_digits g Hg) as [_ Lg].
    destruct (to_string_digits b Hb) as [_ Lb]. lia.
Qed.

(** X10: the string form adds a bounded number of characters: for every
    request (RGB components in 0..255) the sequence has between 4 and 19
    characters, so the result has between 8 and 23 characters more than the
    text. *)
Theorem string_form_overhead :
  forall (q : request) (text : string) (w : world),
    request_ok q -> capable w = true ->
    exists (out : string) (w' : world),
      wrap q text w = Returned out w' /\
      String.length out = (String.length (resolve q) + String.length text + 4)%nat /\
      (String.length text + 8 <= String.length out <= String.length text + 23)%nat.
Proof.
  intros q text w Hq Hc.
  destruct (wrap_returns q text w Hc) as (w' & Hw & _).
  exists (resolve q +:+ text +:+ RESET_STYLE), w'. split; [exact Hw|].
  rewrite !length_append. change (String.length RESET_STYLE) with 4%nat.
  pose proof (resolve_length q Hq). lia.
Qed.

Lemma string_form_overhead_witness :
  request_ok (Rgb Background 255 255 255) /\
  capable (initial Posix ∅) = true /\
  exists (out : string) (w' : world),
    wrap (Rgb Background 255 255 255) "" (initial Posix ∅) = Returned out w' /\
    (String.length out <= 23)%nat.
Proof.
  assert (Hq : request_ok (Rgb Background 255 255 255)) by (simpl; unfold uint8; lia).
  split; [exact Hq|]. split; [reflexivity|].
  destruct (string_form_overhead (Rgb Background 255 255 255) "" (initial Posix ∅)
              Hq eq_refl) as (out & w' & Hw & _ & _ & Hle).
  exists out, w'. split; [exact Hw | exact Hle].
Defined.

(** ** The tables under operator[] *)

(** X11: every lookup the facade makes finds its key: for each of the
    sixteen colours, [color_text] and [color_background] have an entry
    under the key its functions use, so [operator[]] returns a non-empty
    sequence and inserts nothing; both tables stay as they were
    initialised. *)
Theorem facade_lookups_never_insert :
  forall c : NamedColor,
    subscript color_text (key c) = (at_key color_text (key c), color_text) /\
    subscript color_background (key c)
    = (at_key color_background (key c), color_background) /\
    at_key color_text (key c) <> "" /\
    at_key color_background (key c) <> "".
Proof.
  intros c. destruct (keys_present c) as [[v Hv] [v' Hv']].
  unfold subscript, at_key. rewrite Hv, Hv'. simpl.
  split; [reflexivity|]. split; [reflexivity|].
  pose proof (lookup_color_nonempty c Foreground) as Hf.
  pose proof (lookup_color_nonempty c Background) as Hb.
  unfold lookup_color, at_key in Hf, Hb. rewrite Hv in Hf. rewrite Hv' in Hb.
  split; assumption.
Qed.

(** ** The enabler along a run *)

Lemma preserves_bind I {A B} (m : M A) (k : A -> M B) :
  preserves I m -> (forall a, preserves I (k a)) -> preserves I (bind m k).
Proof.
  intros Hm Hk w Hw. unfold bind. specialize (Hm w Hw).
  destruct (m w) as [a w1|st w1]; simpl in *; [apply Hk, Hm | exact Hm].
Qed.

Lemma called_if_set_ret {A} (a : A) : preserves called_if_set (ret a).
Proof. intros w H. exact H. Qed.

Lemma called_if_set_exit {A} st : preserves called_if_set (@exit A st).
Proof. intros w H. exact H. Qed.

Lemma called_if_set_put os s : preserves called_if_set (put os s).
Proof. intros w H. exact H. Qed.

Lemma called_if_set_checkPosition position :
  preserves called_if_set (checkPosition position).
Proof.
  unfold checkPosition.
  destruct (negb (position =? 1) && negb (position =? 0)).
  - apply preserves_bind;
      [apply called_if_set_put | intros _; apply called_if_set_exit].
  - apply called_if_set_ret.
Qed.

Lemma called_if_set_vt_gate : preserves called_if_set vt_gate.
Proof.
  intros w H. unfold vt_gate. destruct (handleVTSequences w) eqn:E; simpl.
  - exact H.
  - unfold enableVTSequences, called_if_set.
    destruct (host w) as [|[[] [] []]]; simpl; intros _; lia.
Qed.

Lemma called_if_set_gate_of c : preserves called_if_set (gate_of c).
Proof.
  destruct c; simpl; first [apply called_if_set_vt_gate | apply called_if_set_ret].
Qed.

Create HintDb called.

#[local] Hint Resolve preserves_bind called_if_set_ret called_if_set_exit
  called_if_set_put called_if_set_checkPosition called_if_set_vt_gate
  called_if_set_gate_of : called.

Lemma called_if_set_invoke c : preserves called_if_set (invoke c).
Proof.
  destruct c as [e text|e os]; simpl; apply preserves_bind; auto with called;
    destruct e as [c p | c | c | p r g b | r g b | r g b | [] |]; simpl;
    unfold named_pos_str, named_str, on_named_str, color_pos_str, color_str,
      on_color_str, bold_str, italic_str, underline_str, reverse_str, reset_str,
      named_pos_os, named_os, on_named_os, color_pos_os, color_os,
      on_color_os, bold_os, italic_os, underline_os, reverse_os, reset_os;
    auto 10 with called.
Qed.

Lemma run_preserves (I : world -> Prop) :
  (forall c, preserves I (invoke c)) ->
  forall cs w, I w -> Forall I (run cs w).
Proof.
  intros Hinv. induction cs as [|c cs IH]; intros w Hw; simpl.
  - constructor; [exact Hw | constructor].
  - constructor; [exact Hw|]. specialize (Hinv c w Hw).
    destruct (invoke c w) as [v w'|st w']; simpl in Hinv.
    + apply IH, Hinv.
    + constructor; [exact Hinv | constructor].
Qed.

(** X12: in every run of a fresh process, on every platform, the enabler
    is called at most once, and the flag is set only in worlds in which it
    has been called exactly once. *)
Theorem enabler_runs_at_most_once :
  forall (p : platform) (s : gmap stream string) (cs : list call),
    Forall (fun w => (enable_calls w <= 1)%nat /\
                     (handleVTSequences w = true -> enable_calls w = 1%nat))
           (run cs (initial p s)).
Proof.
  intros p s cs.
  assert (H1 : Forall (fun w => (enable_calls w <= 1)%nat) (run cs (initial p s))).
  { apply enabler_at_most_once; simpl; [lia | reflexivity]. }
  assert (H2 : Forall called_if_set (run cs (initial p s))).
  { apply run_preserves; [exact called_if_set_invoke | discriminate]. }
  rewrite List.Forall_forall in *. intros w Hw. split; [apply H1, Hw|].
  intros Hset. pose proof (H1 w Hw). pose proof (H2 w Hw Hset). lia.
Qed.

(** ** The operations with the capability statement *)

Lemma sets_flag_vt_gate : sets_flag vt_gate.
Proof.
  intros w a w'. unfold vt_gate, enableVTSequences.
  destruct (handleVTSequences w) eqn:E; simpl; [intros [= _ <-]; exact E|].
  destruct (host w) as [|[[] [] []]]; simpl; try discriminate;
    intros [= _ <-]; reflexivity.
Qed.

Lemma sets_flag_bind_l {A B} (m : M A) (k : A -> M B) :
  sets_flag m -> (forall a, keeps_flag (k a)) -> sets_flag (bind m k).
Proof.
  intros Hm Hk w b w'. unfold bind.
  destruct (m w) as [a w1|st w1] eqn:E; [|discriminate].
  intros H. pose proof (Hk a w1 (Hm w a w1 E)) as Hf. rewrite H in Hf. exact Hf.
Qed.

Lemma sets_flag_bind_r {A B} (m : M A) (k : A -> M B) :
  (forall a, sets_flag (k a)) -> sets_flag (bind m k).
Proof.
  intros Hk w b w'. unfold bind.
  destruct (m w) as [a w1|st w1]; [|discriminate]. apply Hk.
Qed.

Lemma sets_flag_gate_of c : gated c = true -> sets_flag (gate_of c).
Proof. destruct c; simpl; [intros _; apply sets_flag_vt_gate | discriminate ..]. Qed.

Lemma sets_flag_call_str e text : str_uses_gate e = true -> sets_flag (call_str e text).
Proof.
  destruct e as [c p | c | c | p r g b | r g b | r g b | [] |]; simpl; intros Hg;
    unfold named_pos_str, named_str, on_named_str, color_pos_str, color_str,
      on_color_str, bold_str, italic_str, underline_str, reverse_str, reset_str;
    first [ apply sets_flag_bind_r; intros _; apply sets_flag_bind_l;
            [apply sets_flag_vt_gate | auto 10 with flag]
          | apply sets_flag_bind_l; [apply sets_flag_gate_of, Hg | auto 10 with flag]
          | apply sets_flag_bind_l; [apply sets_flag_vt_gate | auto 10 with flag] ].
Qed.

Lemma sets_flag_call_os e os : os_uses_gate e = true -> sets_flag (call_os e os).
Proof.
  destruct e as [c p | c | c | p r g b | r g b | r g b | [] |]; simpl; intros Hg;
    unfold named_pos_os, named_os, on_named_os, color_pos_os, color_os,
      on_color_os, bold_os, italic_os, underline_os, reverse_os, reset_os;
    first [ apply sets_flag_bind_r; intros _; apply sets_flag_bind_l;
            [apply sets_flag_vt_gate | auto 10 with flag]
          | apply sets_flag_bind_l; [apply sets_flag_gate_of, Hg | auto 10 with flag]
          | apply sets_flag_bind_l; [apply sets_flag_vt_gate | auto 10 with flag] ].
Qed.

(** X13: an operation of grey, of the RGB colours, of the styles or of
    reset never returns with the flag unset: when it returns the flag is
    set, and the enabler has been called once more if the operation found
    the flag unset, and not at all if it found it set. *)
Theorem gated_call_enables :
  forall (c : call) (w : world) (v : value) (w' : world),
    uses_gate c = true ->
    invoke c w = Returned v w' ->
    handleVTSequences w' = true /\
    enable_calls w'
    = (if handleVTSequences w then enable_calls w else S (enable_calls w)).
Proof.
  intros c w v w' Hg Hr.
  assert (Hset : handleVTSequences w' = true).
  { destruct c as [e text|e os]; simpl in Hg, Hr; unfold bind in Hr.
    - destruct (call_str e text w) as [a w1|st w1] eqn:E; [|discriminate].
      injection Hr as _ <-. exact (sets_flag_call_str e text Hg w a w1 E).
    - destruct (call_os e os w) as [a w1|st w1] eqn:E; [|discriminate].
      injection Hr as _ <-. exact (sets_flag_call_os e os Hg w a w1 E). }
  split; [exact Hset|].
  pose proof (counts_enabler_invoke c w) as Hc. rewrite Hr in Hc.
  destruct Hc as [Ht Hf]. destruct (handleVTSequences w).
  - apply (Ht eq_refl).
  - destruct (Hf eq_refl) as [[E _]|[_ C]]; [congruence | exact C].
Qed.

Lemma gated_call_enables_witness :
  uses_gate (CallStr ResetStr "x") = true /\
  exists v w',
    invoke (CallStr ResetStr "x") (initial (Win32 (mkConsole true true true)) ∅)
    = Returned v w' /\
    handleVTSequences w' = true /\ enable_calls w' = 1%nat.
Proof.
  split; [reflexivity|].
  eexists. eexists. split; [reflexivity|].
  exact (gated_call_enables (CallStr ResetStr "x")
           (initial (Win32 (mkConsole true true true)) ∅) _ _ eq_refl eq_refl).
Defined.

(** * Streams with a formatting state *)


Lemma padded_fits st s :
  (ios_width st <= String.length s)%nat -> padded st s = s.
Proof.
  intros H. unfold padded.
  destruct (Nat.ltb_spec (String.length s) (ios_width st)); [lia | reflexivity].
Qed.

Lemma fput_unpadded os s fs w0 w :
  unpadded os fs s -> streams w0 = streams w ->
  Formatted.put os s fs w0
  = Returned (tt, <[os := ios_reset (ios_at os fs)]> fs)
             (set_streams (appended os s w) w0).
Proof.
  intros [Hg Hw] Hs. unfold Formatted.put. rewrite Hg, (padded_fits _ _ Hw).
  unfold bind, appended, written. rewrite put_streams. unfold written.
  rewrite Hs. reflexivity.
Qed.













(** ** Chaining stream forms *)









(** ** Streams in the initial formatting state *)

Lemma refines_fret {A} (a : A) : refines (Formatted.fret a) (ret a).
Proof.
  intros fs w Hd. split; [reflexivity|]. intros r w' [= <- _]. exact Hd.
Qed.

Lemma refines_lift {A} (m : M A) : refines (Formatted.lift m) m.
Proof.
  intros fs w Hd. unfold Formatted.lift, bind.
  destruct (m w) as [a w1|st w1]; simpl; split; try reflexivity.
  - intros r w' [= <- _]. exact Hd.
  - discriminate.
Qed.

Lemma refines_fbind {A B} (fm : Formatted.FM A) (m : M A)
      (fk : A -> Formatted.FM B) (k : A -> M B) :
  refines fm m -> (forall a, refines (fk a) (k a)) ->
  refines (Formatted.fbind fm fk) (bind m k).
Proof.
  intros Hm Hk fs w Hd. destruct (Hm fs w Hd) as [Hf Hr].
  unfold Formatted.fbind, bind.
  destruct (fm fs w) as [[a fs1] w1|st w1]; simpl in Hf; rewrite <- Hf; simpl.
  - exact (Hk a fs1 w1 (Hr _ _ eq_refl)).
  - split; [reflexivity | discriminate].
Qed.

Lemma all_default_output os (fs : gmap stream ios) :
  all_default fs -> all_default (<[os := ios_reset (ios_at os fs)]> fs).
Proof.
  intros Hd o. unfold ios_at at 1.
  destruct (decide (os = o)) as [->|Hne].
  - rewrite lookup_insert_eq. simpl. rewrite (Hd o). reflexivity.
  - rewrite lookup_insert_ne by exact Hne. apply Hd.
Qed.

Lemma refines_put os s : refines (Formatted.put os s) (put os s).
Proof.
  intros fs w Hd.
  assert (Hu : unpadded os fs s) by (unfold unpadded; rewrite (Hd os); simpl; split; [reflexivity | lia]).
  rewrite (fput_unpadded os s fs w w Hu eq_refl). split; [reflexivity|].
  intros r w' [= <- _]. apply all_default_output, Hd.
Qed.

Lemma refines_endl os : refines (Formatted.endl os) (endl os).
Proof.
  intros fs w Hd. unfold Formatted.endl. rewrite (Hd os). simpl.
  split; [reflexivity|]. intros r w' [= <- _]. exact Hd.
Qed.

Lemma refines_checkPosition position :
  refines (Formatted.checkPosition position) (checkPosition position).
Proof.
  unfold Formatted.checkPosition, checkPosition.
  destruct (negb (position =? 1) && negb (position =? 0)).
  - apply refines_fbind; [apply refines_put | intros _; apply refines_lift].
  - apply refines_fret.
Qed.

Lemma refines_vt_gate : refines Formatted.vt_gate vt_gate.
Proof.
  intros fs w Hd. unfold Formatted.vt_gate, vt_gate.
  destruct (handleVTSequences w); simpl;
    [split; [reflexivity | intros r w' [= <- _]; exact Hd]|].
  unfold Formatted.enableVTSequences, enableVTSequences.
  destruct (host w) as [|c];
    [split; [reflexivity | intros r w' [= <- _]; exact Hd]|].
  assert (Hwin : refines (Formatted.enableVTSequences_win32 c)
                         (enableVTSequences_win32 c)).
  { unfold Formatted.enableVTSequences_win32, enableVTSequences_win32.
    assert (Hfail : forall msg,
               refines (Formatted.fbind (Formatted.put cerr msg)
                          (fun _ => Formatted.fbind (Formatted.endl cerr)
                                      (fun _ => Formatted.lift (@exit unit EXIT_FAILURE))))
                       (put cerr msg ;; endl cerr ;; @exit unit EXIT_FAILURE)).
    { intros msg. apply refines_fbind; [apply refines_put | intros _].
      apply refines_fbind; [apply refines_endl | intros _; apply refines_lift]. }
    destruct (negb (GetStdHandle_valid c)); [apply Hfail|].
    destruct (negb (GetConsoleMode_ok c)); [apply Hfail|].
    destruct (negb (SetConsoleMode_ok c)); [apply Hfail|].
    intros fs0 w0 Hd0. split; [reflexivity | intros r w' [= <- _]; exact Hd0]. }
  exact (Hwin fs (count_enable w) Hd).
Qed.

Lemma refines_gate_of c : refines (Formatted.gate_of c) (gate_of c).
Proof. destruct c; simpl; first [apply refines_vt_gate | apply refines_fret]. Qed.

Create HintDb refine.

#[local] Hint Resolve refines_fret refines_lift refines_fbind refines_put
  refines_endl refines_checkPosition refines_vt_gate refines_gate_of : refine.

(** On streams that are all in the initial formatting state, the stream
    operations over formatting states do what the operations over plain
    streams do, and leave every stream in the initial state. *)
Lemma formatted_refines_plain e os :
  refines (Formatted.call_os e os) (call_os e os).
Proof.
  destruct e as [c p | c | c | p r g b | r g b | r g b | [] |]; simpl;
    unfold Formatted.named_pos_os, Formatted.named_os, Formatted.on_named_os,
      Formatted.color_pos_os, Formatted.color_os, Formatted.on_color_os,
      Formatted.bold_os, Formatted.italic_os, Formatted.underline_os,
      Formatted.reverse_os, Formatted.reset_os,
      named_pos_os, named_os, on_named_os, color_pos_os, color_os,
      on_color_os, bold_os, italic_os, underline_os, reverse_os, reset_os;
    auto 10 with refine.
Qed.
